(** * GOD assistant console: connector dispatcher and automation engine

    A shallow embedding of [src/llm.ts] and [src/automation.ts] with the
    types of [src/types.ts], and the properties the specification states
    about them; then the state updates and the grounding of the prompt of
    [src/App.tsx], and further properties of the three files.

    Conventions of the embedding.
    - A JavaScript string is the list of its UTF-16 code units
      ([jsstring]); [length], [slice], [trim], [includes] and the regular
      expressions all work on code units, as they do in the engine.
    - Platform services that are not code of the repository (the build-time
      environment key, Unicode lower-casing, the [URL] class) are the
      fields of the class [Host]; [refHost] is a small reference instance
      used to run the functions on concrete inputs.
    - An [async] function that awaits [fetch] is a value of [Prog]: it has
      finished, it has thrown, or it issues one request and continues with
      the result of the request. *)

From Stdlib Require Import String Ascii NArith QArith DecimalString Lia.
From stdpp Require Import base option list gmap.

Local Open Scope N_scope.
Local Open Scope list_scope.

(** ** JavaScript strings *)

Module JS.

(** One UTF-16 code unit. *)
Abbreviation unit16 := N.

Abbreviation jsstring := (list unit16).

(** *** String literals

    A literal of the source is written [js "..."]: the bytes of the Rocq
    literal (UTF-8) are decoded to code points, and the code points are
    encoded in UTF-16. *)

Fixpoint bytes_of (s : string) : list N :=
  match s with
  | EmptyString => []
  | String a s' => N_of_ascii a :: bytes_of s'
  end.

Fixpoint utf8_decode (bs : list N) : list N :=
  match bs with
  | [] => []
  | b0 :: r0 =>
      if b0 <? 128 then b0 :: utf8_decode r0
      else if b0 <? 224 then
        match r0 with
        | b1 :: r1 => ((b0 - 192) * 64 + (b1 - 128)) :: utf8_decode r1
        | [] => []
        end
      else if b0 <? 240 then
        match r0 with
        | b1 :: b2 :: r2 =>
            ((b0 - 224) * 4096 + (b1 - 128) * 64 + (b2 - 128)) :: utf8_decode r2
        | _ => []
        end
      else
        match r0 with
        | b1 :: b2 :: b3 :: r3 =>
            ((b0 - 240) * 262144 + (b1 - 128) * 4096 + (b2 - 128) * 64 + (b3 - 128))
              :: utf8_decode r3
        | _ => []
        end
  end.

Definition utf16_encode (cp : N) : list unit16 :=
  if cp <? 65536 then [cp]
  else [55296 + (cp - 65536) / 1024; 56320 + (cp - 65536) mod 1024].

Definition js (s : string) : jsstring :=
  concat (map utf16_encode (utf8_decode (bytes_of s))).

Arguments js s%_string.

(** The two characters a Rocq literal cannot hold conveniently. *)
Definition nl : jsstring := [10].        (* "\n" *)
Definition dquote : jsstring := [34].    (* the double quote *)

(** *** Truthiness of a string: [s] is truthy iff it is not empty. *)
Definition truthy (s : jsstring) : bool :=
  match s with [] => false | _ :: _ => true end.

(** *** White space

    [WhiteSpace] and [LineTerminator] of ECMAScript: what [trim] strips and
    what [\s] matches. *)
Definition isWhiteSpace (c : unit16) : bool :=
  (c =? 9) || (c =? 10) || (c =? 11) || (c =? 12) || (c =? 13) || (c =? 32)
  || (c =? 160) || (c =? 5760) || ((8192 <=? c) && (c <=? 8202))
  || (c =? 8232) || (c =? 8233) || (c =? 8239) || (c =? 8287)
  || (c =? 12288) || (c =? 65279).

Fixpoint trimStart (s : jsstring) : jsstring :=
  match s with
  | [] => []
  | c :: s' => if isWhiteSpace c then trimStart s' else s
  end.

Definition trimEnd (s : jsstring) : jsstring := rev (trimStart (rev s)).

(** [String.prototype.trim] *)
Definition trim (s : jsstring) : jsstring := trimEnd (trimStart s).

(** *** [startsWith], [includes], [slice], [join] *)

Fixpoint startsWith (s p : jsstring) {struct p} : bool :=
  match p, s with
  | [], _ => true
  | _ :: _, [] => false
  | a :: p', b :: s' => (a =? b) && startsWith s' p'
  end.

Fixpoint includes (s p : jsstring) : bool :=
  startsWith s p ||
  match s with
  | [] => false
  | _ :: s' => includes s' p
  end.

(** [s.slice(0, n)] for [n >= 0]. *)
Definition slice0 (n : nat) (s : jsstring) : jsstring := take n s.

(** [s.slice(i, j)] for [0 <= i <= j]. *)
Definition substring (i j : nat) (s : jsstring) : jsstring :=
  take (j - i) (drop i s).

(** [xs.join(sep)] on an array of strings. *)
Fixpoint join (sep : jsstring) (xs : list jsstring) : jsstring :=
  match xs with
  | [] => []
  | [x] => x
  | x :: xs' => x ++ sep ++ join sep xs'
  end.

(** *** Numbers in template literals

    Only array lengths and HTTP status codes are printed: non-negative
    integers, in decimal. *)
Definition Number_toString (n : N) : jsstring :=
  js (NilEmpty.string_of_uint (N.to_uint n)).

End JS.

(** ** Regular expressions

    The backtracking matcher of ECMAScript (ECMA-262, 22.2.2), for the
    constructs the source uses: characters, character classes, sequence,
    alternation, greedy and lazy quantifiers, groups, and the flags [i] and
    [g].  A pattern is compiled to a matcher in continuation-passing style,
    as in the standard; a quantifier carries fuel, which the length of the
    input bounds. *)

Module RegExp.
Import JS.

Inductive regex : Type :=
| Empty                                           (* the empty pattern *)
| Char (ch : unit16)                              (* a pattern character *)
| CharSet (p : unit16 -> bool)                    (* a class: [..] [^..] \s *)
| Seq (r1 r2 : regex)                             (* r1 r2 *)
| Alt (r1 r2 : regex)                             (* r1|r2 *)
| Repeat (r : regex) (min : nat) (max : option nat) (greedy : bool)
| Group (n : nat) (r : regex).                    (* the n-th capturing group *)

(** Quantifiers of the surface syntax. *)
Definition Star (r : regex) : regex := Repeat r 0 None true.        (* r*  *)
Definition LazyStar (r : regex) : regex := Repeat r 0 None false.   (* r*? *)
Definition Plus (r : regex) : regex := Repeat r 1 None true.        (* r+  *)
Definition Opt (r : regex) : regex := Repeat r 0 (Some 1%nat) true. (* r?  *)

(** A run of pattern characters. *)
Fixpoint lit (s : jsstring) : regex :=
  match s with
  | [] => Empty
  | c :: s' => Seq (Char c) (lit s')
  end.

(** [Canonicalize] without the [u] flag.  The patterns of the source hold
    Basic Latin characters only; for those, an input unit matches under [i]
    exactly when it is the same letter in either case, because the standard
    never folds a unit above 127 onto one below 128.  The classes of the
    source hold white space and punctuation only, which have no case: [i]
    does not change what they match. *)
Definition canonicalize (ignoreCase : bool) (c : unit16) : unit16 :=
  if ignoreCase && (97 <=? c) && (c <=? 122) then c - 32 else c.

Record MatchState : Type := mkState {
  endIndex : nat;                          (* units consumed so far *)
  remaining : jsstring;                    (* the input from [endIndex] on *)
  captures : list (nat * (nat * nat))      (* group, start and end index *)
}.

Definition Continuation : Type := MatchState -> option MatchState.
Definition Matcher : Type := MatchState -> Continuation -> option MatchState.

Definition advance (x : MatchState) (rest : jsstring) : MatchState :=
  mkState (S (endIndex x)) rest (captures x).

(** [RepeatMatcher].  No quantified pattern of the source holds a capturing
    group, so the step that resets the captures of the body is left out. *)
Fixpoint RepeatMatcher (m : Matcher) (fuel min : nat) (max : option nat)
    (greedy : bool) (x : MatchState) (c : Continuation) : option MatchState :=
  match fuel with
  | O => None
  | S fuel' =>
      match max with
      | Some O => c x
      | _ =>
          let d : Continuation := fun y =>
            if Nat.eqb min 0 && Nat.eqb (endIndex y) (endIndex x) then None
            else RepeatMatcher m fuel' (Nat.pred min) (Nat.pred <$> max) greedy y c in
          if negb (Nat.eqb min 0) then m x d
          else if greedy then
            match m x d with Some z => Some z | None => c x end
          else
            match c x with Some z => Some z | None => m x d end
      end
  end.

Fixpoint compile (ignoreCase : bool) (r : regex) : Matcher :=
  match r with
  | Empty => fun x c => c x
  | Char ch => fun x c =>
      match remaining x with
      | [] => None
      | a :: rest =>
          if canonicalize ignoreCase ch =? canonicalize ignoreCase a
          then c (advance x rest) else None
      end
  | CharSet p => fun x c =>
      match remaining x with
      | [] => None
      | a :: rest => if p a then c (advance x rest) else None
      end
  | Seq r1 r2 => fun x c =>
      compile ignoreCase r1 x (fun y => compile ignoreCase r2 y c)
  | Alt r1 r2 => fun x c =>
      match compile ignoreCase r1 x c with
      | Some z => Some z
      | None => compile ignoreCase r2 x c
      end
  | Repeat r' min max greedy => fun x c =>
      RepeatMatcher (compile ignoreCase r')
        (S (min + length (remaining x))) min max greedy x c
  | Group n r' => fun x c =>
      compile ignoreCase r' x (fun y =>
        c (mkState (endIndex y) (remaining y)
             ((n, (endIndex x, endIndex y)) :: captures y)))
  end.

(** A pattern with its flags ([g] is a matter of the method called). *)
Record RegExp : Type := mkRegExp { source : regex; ignoreCase : bool }.

Record MatchResult : Type := mkMatch {
  index : nat;                             (* where the match starts *)
  lastIndex : nat;                         (* where it ends *)
  groups : list (nat * (nat * nat))
}.

(** One attempt, at index [i], on the input [rest] that starts there. *)
Definition matchHere (re : RegExp) (i : nat) (rest : jsstring) : option MatchResult :=
  match compile (ignoreCase re) (source re) (mkState i rest []) Some with
  | Some z => Some (mkMatch i (endIndex z) (captures z))
  | None => None
  end.

(** [RegExpBuiltinExec]: the first index from [i] on at which the pattern
    matches; the end of the input is tried too. *)
Fixpoint execFrom (re : RegExp) (i : nat) (rest : jsstring) : option MatchResult :=
  match matchHere re i rest with
  | Some m => Some m
  | None =>
      match rest with
      | [] => None
      | _ :: rest' => execFrom re (S i) rest'
      end
  end.

(** [re.exec(s)] for a pattern without [g]: the search starts at 0. *)
Definition exec (re : RegExp) (s : jsstring) : option MatchResult := execFrom re 0 s.

(** The matched text, and the text of a group ([None]: [undefined]). *)
Definition matched (s : jsstring) (m : MatchResult) : jsstring :=
  substring (index m) (lastIndex m) s.

Fixpoint capture (n : nat) (gs : list (nat * (nat * nat))) : option (nat * nat) :=
  match gs with
  | [] => None
  | (k, span) :: gs' => if Nat.eqb k n then Some span else capture n gs'
  end.

Definition group (s : jsstring) (m : MatchResult) (n : nat) : option jsstring :=
  match capture n (groups m) with
  | Some (i, j) => Some (substring i j s)
  | None => None
  end.

(** [s.match(re)] for a pattern with [g]: every match, each search starting
    where the previous match ended (one unit further after an empty match);
    [None] is [null], the result when there is no match. *)
Fixpoint matchesFrom (re : RegExp) (fuel : nat) (s : jsstring) (i : nat)
    : list MatchResult :=
  match fuel with
  | O => []
  | S fuel' =>
      if (length s <? i)%nat then []
      else
        match execFrom re i (drop i s) with
        | None => []
        | Some m =>
            let e := lastIndex m in
            m :: matchesFrom re fuel' s (if Nat.eqb e (index m) then S e else e)
        end
  end.

Definition matchAllG (re : RegExp) (s : jsstring) : option (list jsstring) :=
  match matchesFrom re (S (S (length s))) s 0 with
  | [] => None
  | ms => Some (map (matched s) ms)
  end.

(** [GetSubstitution] for a pattern without groups: [$$], [$&], [$`] and
    [$'] are expanded; [$] before anything else, digits and [<] included,
    stands for itself. *)
Fixpoint GetSubstitution (matchedText before after replacement : jsstring) : jsstring :=
  match replacement with
  | [] => []
  | c :: r =>
      if c =? 36 then
        match r with
        | [] => [c]
        | d :: r' =>
            if d =? 36 then 36 :: GetSubstitution matchedText before after r'
            else if d =? 38 then matchedText ++ GetSubstitution matchedText before after r'
            else if d =? 96 then before ++ GetSubstitution matchedText before after r'
            else if d =? 39 then after ++ GetSubstitution matchedText before after r'
            else c :: GetSubstitution matchedText before after r
        end
      else c :: GetSubstitution matchedText before after r
  end.

(** [s.replace(re, replacement)] for a pattern without [g] and without
    groups, and a string replacement: the first match is replaced. *)
Definition replace (re : RegExp) (replacement : jsstring) (s : jsstring) : jsstring :=
  match exec re s with
  | None => s
  | Some m =>
      let before := take (index m) s in
      let after := drop (lastIndex m) s in
      before ++ GetSubstitution (matched s m) before after replacement ++ after
  end.

(** [s.split(re)] for a pattern without groups and no limit. *)
Fixpoint splitLoop (re : RegExp) (fuel : nat) (s : jsstring) (p q : nat)
    : list jsstring :=
  match fuel with
  | O => [drop p s]
  | S fuel' =>
      if (q <? length s)%nat then
        match matchHere re q (drop q s) with
        | None => splitLoop re fuel' s p (S q)
        | Some m =>
            let e := Nat.min (lastIndex m) (length s) in
            if Nat.eqb e p then splitLoop re fuel' s p (S q)
            else substring p q s :: splitLoop re fuel' s e e
        end
      else [drop p s]
  end.

Definition split (re : RegExp) (s : jsstring) : list jsstring :=
  match s with
  | [] => match matchHere re 0 [] with Some _ => [] | None => [[]] end
  | _ => splitLoop re (S (2 * length s)) s 0 0
  end.

End RegExp.

(** ** [src/types.ts] *)

Module Types.
Import JS.

Inductive Role : Type := user | assistant | system.

#[export] Instance Role_eq_dec : EqDecision Role.
Proof. solve_decision. Defined.

Record Message : Type := mkMessage {
  msg_id : jsstring;
  role : Role;
  content : jsstring;
  createdAt : jsstring
}.

Record AutomationTask : Type := mkTask {
  id : jsstring;
  name : jsstring;
  command : jsstring;
  enabled : bool
}.

Record LlmSettings : Type := mkSettings {
  endpoint : jsstring;
  model : jsstring;
  apiKey : jsstring;
  systemPrompt : jsstring
}.

(** A value of type [Role] is one of three strings. *)
Definition roleString (r : Role) : jsstring :=
  match r with
  | user => js "user"
  | assistant => js "assistant"
  | system => js "system"
  end.

End Types.

(** ** The platform

    What the two modules use and the repository does not define.
    [searchParams] is the list of name-value pairs of [url.searchParams];
    [has] and [set] on it follow the URL standard. *)

Module Platform.
Import JS.

Abbreviation pairs := (list (jsstring * jsstring)).

(** [URLSearchParams.prototype.has] *)
Definition has (name : jsstring) (l : pairs) : bool :=
  existsb (fun p => bool_decide (fst p = name)) l.

(** [URLSearchParams.prototype.getAll] *)
Definition getAll (name : jsstring) (l : pairs) : list jsstring :=
  map snd (filter (fun p => fst p = name) l).

(** [URLSearchParams.prototype.set]: the first pair of that name takes the
    value and the others are removed; without such a pair, one is appended. *)
Fixpoint setPair (name value : jsstring) (l : pairs) : pairs :=
  match l with
  | [] => [(name, value)]
  | p :: l' =>
      if bool_decide (fst p = name)
      then (name, value) :: filter (fun q => fst q <> name) l'
      else p :: setPair name value l'
  end.

Class Host : Type := {
  (** [import.meta.env.VITE_GOD_API_KEY]; [None] is [undefined] *)
  VITE_GOD_API_KEY : option jsstring;
  (** [String.prototype.toLowerCase] *)
  toLowerCase : jsstring -> jsstring;
  (** the class [URL]; [newURL] is [None] when the constructor throws *)
  URL : Type;
  newURL : jsstring -> option URL;
  searchParams : URL -> pairs;
  searchParams_set : jsstring -> jsstring -> URL -> URL;
  URL_toString : URL -> jsstring;
  searchParams_set_list : forall name value u,
    searchParams (searchParams_set name value u) = setPair name value (searchParams u)
}.

(** *** A reference platform

    Lower-casing of Basic Latin and Latin-1, and URLs cut at the first [#]
    and the first [?], the query at each [&] and each pair at its first [=].
    It agrees with a browser on absolute http(s) URLs that are already in
    normal form and whose query needs no percent-encoding. *)

Definition lowerUnit (c : unit16) : unit16 :=
  if ((65 <=? c) && (c <=? 90)) || ((192 <=? c) && (c <=? 222) && negb (c =? 215))
  then c + 32 else c.

Record RefURL : Type := mkRefURL {
  beforeQuery : jsstring;          (* scheme, authority and path *)
  query : option pairs;            (* [None]: no [?] at all *)
  fragment : option jsstring
}.

(** [s] cut at the first occurrence of the unit [sep]. *)
Fixpoint cut (sep : unit16) (s : jsstring) : jsstring * option jsstring :=
  match s with
  | [] => ([], None)
  | c :: s' =>
      if c =? sep then ([], Some s')
      else let '(a, b) := cut sep s' in (c :: a, b)
  end.

Fixpoint splitOn (sep : unit16) (fuel : nat) (s : jsstring) : list jsstring :=
  match fuel with
  | O => [s]
  | S fuel' =>
      match cut sep s with
      | (a, None) => [a]
      | (a, Some b) => a :: splitOn sep fuel' b
      end
  end.

Definition parseQuery (q : jsstring) : pairs :=
  map (fun piece => let '(n, v) := cut 61 piece in (n, default [] v))
      (filter (fun piece => piece <> []) (splitOn 38 (length q) q)).

Definition serializeQuery (l : pairs) : jsstring :=
  join (js "&") (map (fun p => fst p ++ js "=" ++ snd p) l).

Definition refNewURL (s : jsstring) : option RefURL :=
  if startsWith s (js "http://") || startsWith s (js "https://") then
    let '(rest, frag) := cut 35 s in
    let '(base, q) := cut 63 rest in
    Some (mkRefURL base (parseQuery <$> q) frag)
  else None.

Definition refToString (u : RefURL) : jsstring :=
  beforeQuery u
  ++ match query u with Some l => js "?" ++ serializeQuery l | None => [] end
  ++ match fragment u with Some f => js "#" ++ f | None => [] end.

Definition refSet (name value : jsstring) (u : RefURL) : RefURL :=
  mkRefURL (beforeQuery u) (Some (setPair name value (default [] (query u)))) (fragment u).

Definition refHost (envKey : option jsstring) : Host := {|
  VITE_GOD_API_KEY := envKey;
  toLowerCase := map lowerUnit;
  URL := RefURL;
  newURL := refNewURL;
  searchParams := fun u => default [] (query u);
  searchParams_set := refSet;
  URL_toString := refToString;
  searchParams_set_list := fun _ _ _ => eq_refl
|}.

End Platform.

(** ** [src/automation.ts] *)

Module Automation.
Import JS RegExp Types Platform.

Definition noneOf (cs : jsstring) (c : unit16) : bool := negb (existsb (N.eqb c) cs).
Definition oneOf (cs : jsstring) (c : unit16) : bool := existsb (N.eqb c) cs.
Definition notSpace (c : unit16) : bool := negb (isWhiteSpace c).
Definition anyUnit (c : unit16) : bool := true.

(** [/https?:\/\/[^\s]+/] *)
Definition urlRegExp : RegExp :=
  mkRegExp (Seq (lit (js "http")) (Seq (Opt (lit (js "s")))
           (Seq (lit (js "://")) (Plus (CharSet notSpace))))) false.

(** [/[^?\n][^?]*\?/g] *)
Definition questionRegExp : RegExp :=
  mkRegExp (Seq (CharSet (noneOf (js "?" ++ nl)))
           (Seq (Star (CharSet (noneOf (js "?")))) (lit (js "?")))) false.

(** [/(?:correct(?:\s+answer)?|answer)\s*[:\-]\s*([^\n]+)/i] *)
Definition answerRegExp : RegExp :=
  mkRegExp (Seq (Alt (Seq (lit (js "correct"))
                          (Opt (Seq (Plus (CharSet isWhiteSpace)) (lit (js "answer")))))
                     (lit (js "answer")))
           (Seq (Star (CharSet isWhiteSpace))
           (Seq (CharSet (oneOf (js ":-")))
           (Seq (Star (CharSet isWhiteSpace))
                (Group 1 (Plus (CharSet (noneOf nl)))))))) true.

(** [/```[\s\S]*?```/g] *)
Definition codeRegExp : RegExp :=
  mkRegExp (Seq (lit (js "```")) (Seq (LazyStar (CharSet anyUnit)) (lit (js "```")))) false.

(** [/\s+/] *)
Definition spacesRegExp : RegExp := mkRegExp (Plus (CharSet isWhiteSpace)) false.

(** [[...new Set(words)]]: the first occurrence of each word, in order. *)
Fixpoint uniqueFrom (seen words : list jsstring) : list jsstring :=
  match words with
  | [] => []
  | w :: ws =>
      if bool_decide (w ∈ seen) then uniqueFrom seen ws
      else w :: uniqueFrom (w :: seen) ws
  end.

Definition unique (words : list jsstring) : list jsstring := uniqueFrom [] words.

Definition strEq (a b : jsstring) : bool := bool_decide (a = b).

Definition defaultTasks : list AutomationTask := [
  mkTask (js "summarize") (js "Summarize Input")
    (js "Extract key points and action items.") true;
  mkTask (js "roadmap") (js "Generate Roadmap")
    (js "Create a short execution plan.") true;
  mkTask (js "safety-check") (js "Safety Check")
    (js "Block requests for privilege escalation or system exploitation.") true;
  mkTask (js "answer-web-questions") (js "Answer Web Questions")
    (js "Extract and answer questions from the current webpage content.") true;
  mkTask (js "extract-links") (js "Extract Links")
    (js "Pull all hyperlinks and URLs from the provided content.") true;
  mkTask (js "faq-generator") (js "FAQ Generator")
    (js "Create a frequently asked questions list from the content.") true;
  mkTask (js "code-extractor") (js "Code Extractor")
    (js "Extract code snippets and provide explanations.") true;
  mkTask (js "key-phrases") (js "Key Phrases")
    (js "Extract and list important keywords and topics.") true
].

Section WithHost.
Context `{Host}.

(** The label every block of a built-in task starts with: [[${task.name}]\n]. *)
Definition label (task : AutomationTask) : jsstring := js "[" ++ name task ++ js "]".

Definition bullets (items : list jsstring) : jsstring :=
  join nl (map (fun q => js "- " ++ q) items).

(** [case 'summarize'] *)
Definition summarize (task : AutomationTask) (cleanedPrompt : jsstring) : jsstring :=
  label task ++ nl ++
  (if (300 <? length cleanedPrompt)%nat
   then slice0 300 cleanedPrompt ++ js "..." else cleanedPrompt).

(** [case 'roadmap'] *)
Definition roadmap (task : AutomationTask) : jsstring :=
  label task ++ nl ++ js "1. Understand the problem" ++ nl
  ++ js "2. Identify key steps" ++ nl ++ js "3. Execute and validate" ++ nl
  ++ js "4. Document results".

(** [case 'safety-check'] *)
Definition safetyCheck (task : AutomationTask) (cleanedPrompt : jsstring) : jsstring :=
  let blocked := [js "admin rights"; js "privilege escalation"; js "reverse engineer"] in
  let matched := List.filter (fun word => includes (toLowerCase cleanedPrompt) word) blocked in
  let isSafe := Nat.eqb (length matched) 0 in
  label task ++ nl ++
  (if isSafe then js "✅ Safe to execute"
   else js "⚠️ Needs manual review (matched: " ++ join (js ", ") matched ++ js ")").

(** [cleanedPrompt.match(/[^?\n][^?]*\?/g)?.map(trim).filter(Boolean) ?? []] *)
Definition questionMatches (cleanedPrompt : jsstring) : list jsstring :=
  match matchAllG questionRegExp cleanedPrompt with
  | Some found => List.filter truthy (map trim found)
  | None => []
  end.

(** [correctAnswerMatch?.[1]?.trim()]; [None] is [undefined]. *)
Definition extractedAnswer (cleanedPrompt : jsstring) : option jsstring :=
  match exec answerRegExp cleanedPrompt with
  | Some m => trim <$> group cleanedPrompt m 1
  | None => None
  end.

(** [case 'answer-web-questions'] *)
Definition answerWebQuestions (task : AutomationTask) (cleanedPrompt : jsstring) : jsstring :=
  let urlPattern := exec urlRegExp cleanedPrompt in
  let questions := questionMatches cleanedPrompt in
  match urlPattern with
  | Some m =>
      let questionPreview :=
        if (0 <? length questions)%nat
        then nl ++ js "Detected question(s):" ++ nl ++ bullets questions else [] in
      label task ++ nl ++ js "📄 Webpage detected: " ++ matched cleanedPrompt m
      ++ questionPreview ++ nl
      ++ js "Use the Paste Page Text box for exact grounded answers, or let GOD try to fetch page content automatically."
  | None =>
      if (0 <? length questions)%nat then
        let answer := extractedAnswer cleanedPrompt in
        let found := match answer with Some a => truthy a | None => false end in
        label task ++ nl ++ js "Detected "
        ++ Number_toString (N.of_nat (length questions)) ++ js " question(s)." ++ nl
        ++ js "❔ Questions:" ++ nl ++ bullets questions
        ++ (if found
            then nl ++ js "✅ Possible answer found in provided content: " ++ default [] answer
            else [])
        ++ (if found then []
            else nl ++ js "ℹ️ No explicit " ++ dquote ++ js "correct answer" ++ dquote
                 ++ js " text found. Paste more of the page content or metadata.")
      else label task ++ nl ++ js "No questions detected in input."
  end.

(** [case 'extract-links'] *)
Definition extractLinks (task : AutomationTask) (cleanedPrompt : jsstring) : jsstring :=
  let urlMatch := default [] (matchAllG urlRegExp cleanedPrompt) in
  if (0 <? length urlMatch)%nat
  then label task ++ nl ++ js "Found " ++ Number_toString (N.of_nat (length urlMatch))
       ++ js " link(s):" ++ nl ++ bullets urlMatch
  else label task ++ nl ++ js "No links found in input.".

(** [case 'faq-generator'] *)
Definition faqGenerator (task : AutomationTask) : jsstring :=
  label task ++ nl
  ++ js "FAQ structure would extract Q&A patterns from content. Manual extraction recommended for accuracy.".

(** [case 'code-extractor'] *)
Definition codeExtractor (task : AutomationTask) (cleanedPrompt : jsstring) : jsstring :=
  let codeMatch := default [] (matchAllG codeRegExp cleanedPrompt) in
  if (0 <? length codeMatch)%nat
  then label task ++ nl ++ js "Found " ++ Number_toString (N.of_nat (length codeMatch))
       ++ js " code block(s)."
  else label task ++ nl ++ js "No code blocks detected.".

(** [case 'key-phrases'] *)
Definition keyPhrases (task : AutomationTask) (cleanedPrompt : jsstring) : jsstring :=
  let words := List.filter (fun w => (5 <? length w)%nat) (split spacesRegExp cleanedPrompt) in
  let uniq := take 5 (unique words) in
  label task ++ nl ++ js "Key terms: " ++ join (js ", ") uniq.

(** [default] *)
Definition fallback (task : AutomationTask) : jsstring :=
  label task ++ js " " ++ command task.

(** The [switch (task.id)] of the loop body: the block one task pushes. *)
Definition taskOutput (cleanedPrompt : jsstring) (task : AutomationTask) : jsstring :=
  if strEq (id task) (js "summarize") then summarize task cleanedPrompt
  else if strEq (id task) (js "roadmap") then roadmap task
  else if strEq (id task) (js "safety-check") then safetyCheck task cleanedPrompt
  else if strEq (id task) (js "answer-web-questions") then answerWebQuestions task cleanedPrompt
  else if strEq (id task) (js "extract-links") then extractLinks task cleanedPrompt
  else if strEq (id task) (js "faq-generator") then faqGenerator task
  else if strEq (id task) (js "code-extractor") then codeExtractor task cleanedPrompt
  else if strEq (id task) (js "key-phrases") then keyPhrases task cleanedPrompt
  else fallback task.

(** The block pushed after the loop. *)
Definition inputEcho (cleanedPrompt : jsstring) : jsstring :=
  nl ++ js "Input: " ++ dquote ++ slice0 200 cleanedPrompt
  ++ (if (200 <? length cleanedPrompt)%nat then js "..." else []) ++ dquote.

(** [runAutomation].  [await wait(120)] only delays the loop: the promise
    resolves to the list computed here. *)
Definition runAutomation (userPrompt : jsstring) (tasks : list AutomationTask)
    : list jsstring :=
  let activeTasks := List.filter enabled tasks in
  if Nat.eqb (length activeTasks) 0 then [js "No automation tasks enabled."]
  else
    let cleanedPrompt := trim userPrompt in
    let outputs := map (taskOutput cleanedPrompt) activeTasks in
    if truthy cleanedPrompt then outputs ++ [inputEcho cleanedPrompt] else outputs.

End WithHost.
End Automation.

(** ** [src/llm.ts] *)

Module Llm.
Import JS RegExp Types Platform.

(** *** Responses, as the interfaces [GeminiResponse] and
    [ChatCompletionResponse] declare them; [None] is an absent field. *)

Record GeminiPart : Type := { part_text : option jsstring }.
Record GeminiContent : Type := { content_parts : option (list GeminiPart) }.
Record GeminiCandidate : Type := { candidate_content : option GeminiContent }.
Record GeminiResponse : Type := { candidates : option (list GeminiCandidate) }.

Record ChoiceMessage : Type := {
  message_role : option jsstring;
  message_content : option jsstring
}.
Record Choice : Type := { choice_message : option ChoiceMessage }.
Record ChatCompletionResponse : Type := { choices : option (list Choice) }.

(** The parsed body of a response, seen through either interface (the
    casts [as GeminiResponse] and [as ChatCompletionResponse]). *)
Record JsonBody : Type := {
  asGeminiResponse : GeminiResponse;
  asChatCompletionResponse : ChatCompletionResponse
}.

(** A [Response] of [fetch]: [response.status], what [response.text()]
    resolves to, and what [response.json()] resolves to ([None] when the
    body is not JSON and the promise rejects). *)
Record Response : Type := mkResponse {
  status : N;
  text : jsstring;
  json : option JsonBody
}.

(** [response.ok]: the status is in the range 200 to 299. *)
Definition ok (r : Response) : bool := (200 <=? status r) && (status r <=? 299).

(** *** Requests *)

Record TextPart : Type := mkTextPart { part : jsstring }.       (* {text} *)

Record GeminiEntry : Type := mkEntry {                          (* {role, parts} *)
  entry_role : jsstring;
  entry_parts : list TextPart
}.

Record GenerationConfig : Type := mkGenerationConfig {
  maxOutputTokens : N;
  config_temperature : Q
}.

Record GeminiPayload : Type := mkGeminiPayload {
  system_instruction : list TextPart;                           (* {parts} *)
  contents : list GeminiEntry;
  generationConfig : option GenerationConfig
}.

Record ChatMessage : Type := mkChatMessage {                    (* {role, content} *)
  chat_role : jsstring;
  chat_content : jsstring
}.

Record ChatPayload : Type := mkChatPayload {
  payload_model : jsstring;
  messages : list ChatMessage;
  temperature : Q;
  max_tokens : option N
}.

(** [JSON.stringify(payload)]: the body is kept as the payload it prints. *)
Inductive RequestBody : Type :=
| stringifyGemini (payload : GeminiPayload)
| stringifyChat (payload : ChatPayload).

Record RequestInit : Type := mkInit {
  method : jsstring;
  headers : gmap jsstring jsstring;
  body : RequestBody
}.

(** *** Thrown values and asynchronous programs *)

Inductive Thrown : Type :=
| Error (message : jsstring)      (* [new Error(message)] *)
| InvalidURL                      (* the [TypeError] of [new URL] *)
| InvalidJSON.                    (* the [SyntaxError] of [response.json()] *)

(** What the promise of [fetch] settles to. *)
Inductive Settled : Type :=
| Resolved (response : Response)
| RejectedWith (message : jsstring)   (* rejected with an [Error] *)
| RejectedOther.                      (* rejected with another value *)

Inductive Prog (A : Type) : Type :=
| Return (a : A)
| Throw (e : Thrown)
| Fetch (url : jsstring) (init : RequestInit) (k : Settled -> Prog A).

Arguments Return {A} a.
Arguments Throw {A} e.
Arguments Fetch {A} url init k.

Fixpoint bind {A B : Type} (p : Prog A) (f : A -> Prog B) : Prog B :=
  match p with
  | Return a => f a
  | Throw e => Throw e
  | Fetch url init k => Fetch url init (fun r => bind (k r) f)
  end.

#[export] Instance Prog_ret : MRet Prog := @Return.
#[export] Instance Prog_bind : MBind Prog := fun A B f p => bind p f.

(** Running a program against a network: the outcome, and the requests
    issued, in order. *)
Inductive Outcome (A : Type) : Type :=
| Fulfilled (a : A)
| Failed (e : Thrown).

Arguments Fulfilled {A} a.
Arguments Failed {A} e.

Definition Network : Type := jsstring -> RequestInit -> Settled.

Fixpoint run {A : Type} (net : Network) (p : Prog A)
    : Outcome A * list (jsstring * RequestInit) :=
  match p with
  | Return a => (Fulfilled a, [])
  | Throw e => (Failed e, [])
  | Fetch url init k =>
      let '(out, calls) := run net (k (net url init)) in
      (out, (url, init) :: calls)
  end.

Inductive Provider : Type := Gemini | OpenAI_compatible.

Definition providerName (p : Provider) : jsstring :=
  match p with
  | Gemini => js "Gemini"
  | OpenAI_compatible => js "OpenAI-compatible"
  end.

Definition isGemini (p : Provider) : bool :=
  match p with Gemini => true | OpenAI_compatible => false end.

Section WithHost.
Context `{Host}.

(** The [try]/[catch] of [safeFetch] around [await fetch(url, init)]: a
    response is returned, a rejection is thrown again with a hint. *)
Definition catchFetch (provider : Provider) (settled : Settled) : Prog Response :=
  match settled with
  | Resolved response => Return response
  | RejectedWith _ | RejectedOther =>
      let message :=
        match settled with
        | RejectedWith m => m
        | _ => js "Unknown network error"
        end in
      if negb (isGemini provider)
         && includes (toLowerCase message) (js "failed to fetch")
      then Throw (Error (js "OpenAI-compatible request failed in browser (Failed to fetch). This is commonly CORS/network policy. Use Gemini preset, Ollama local preset, or route requests through your own backend relay."))
      else Throw (Error (providerName provider
             ++ js " request could not reach the endpoint (" ++ message
             ++ js "). Check internet access, endpoint URL, CORS/referrer restrictions, and firewall/proxy settings."))
  end.

(** [safeFetch] *)
Definition safeFetch (url : jsstring) (init : RequestInit) (provider : Provider)
    : Prog Response :=
  Fetch url init (catchFetch provider).

(** [formatProviderHttpError] *)
Definition formatProviderHttpError (provider : Provider) (status : N)
    (details : jsstring) : jsstring :=
  let brief := slice0 220 details in
  if status =? 429 then
    providerName provider ++ js " quota/rate limit reached (429): " ++ brief
    ++ js ". Check billing/quota, then retry later or switch to Ollama preset."
  else if (status =? 401) || (status =? 403) then
    providerName provider ++ js " authentication/permission failed ("
    ++ Number_toString status ++ js "): " ++ brief
    ++ js ". Verify API key and provider permissions."
  else if isGemini provider then
    js "Gemini request failed (" ++ Number_toString status ++ js "): " ++ brief
    ++ js ". Verify API key validity and that Generative Language API is enabled."
  else
    providerName provider ++ js " request failed (" ++ Number_toString status
    ++ js "): " ++ brief.

Definition isGeminiEndpoint (endpoint : jsstring) : bool :=
  includes endpoint (js "generativelanguage.googleapis.com").

Definition isLocalOllamaEndpoint (endpoint : jsstring) : bool :=
  let value := toLowerCase endpoint in
  includes value (js "localhost:11434") || includes value (js "127.0.0.1:11434").

(** [resolveApiKey] *)
Definition resolveApiKey (settings : LlmSettings) : jsstring :=
  let entered := trim (apiKey settings) in
  if truthy entered then entered
  else trim (default [] VITE_GOD_API_KEY).

(** [validateProviderSettings]; [None] is [null]. *)
Definition validateProviderSettings (endpoint apiKey : jsstring) : option jsstring :=
  let trimmedKey := trim apiKey in
  let gemini := isGeminiEndpoint endpoint in
  if isLocalOllamaEndpoint endpoint then None
  else if negb (truthy trimmedKey) then None
  else if gemini && negb (startsWith trimmedKey (js "AIza")) then
    Some (js "Gemini preset expects a Google API key (usually starts with AIza).")
  else if negb gemini && startsWith trimmedKey (js "AIza") then
    Some (js "OpenAI-compatible preset cannot use a Google Gemini key. Switch preset to Gemini API or provide a compatible provider key.")
  else None.

(** [withGeminiApiKey]; it throws when [new URL] does. *)
Definition withGeminiApiKey (endpoint apiKey : jsstring) : Prog jsstring :=
  let trimmedApiKey := trim apiKey in
  if negb (truthy trimmedApiKey) then Return endpoint
  else
    match newURL endpoint with
    | None => Throw InvalidURL
    | Some url =>
        let url' :=
          if negb (has (js "key") (searchParams url))
          then searchParams_set (js "key") trimmedApiKey url
          else url in
        Return (URL_toString url')
    end.

(** The class [[^:/?]]. *)
Definition segmentUnit (c : unit16) : bool := negb (existsb (N.eqb c) (js ":/?")).

(** [/\/models\/[^:/?]+(?::generateContent)?/i] *)
Definition modelRegExp : RegExp :=
  mkRegExp (Seq (lit (js "/models/"))
           (Seq (Plus (CharSet segmentUnit))
                (Opt (lit (js ":generateContent"))))) true.

(** [withGeminiModel] *)
Definition withGeminiModel (endpoint model : jsstring) : jsstring :=
  let trimmedModel := trim model in
  if negb (truthy trimmedModel) then endpoint
  else replace modelRegExp
         (js "/models/" ++ trimmedModel ++ js ":generateContent") endpoint.

(** [buildHeaders] *)
Definition buildHeaders (settings : LlmSettings) : gmap jsstring jsstring :=
  let headers : gmap jsstring jsstring :=
    {[ js "Content-Type" := js "application/json" ]} in
  let apiKey := resolveApiKey settings in
  if truthy apiKey
  then <[ js "Authorization" := js "Bearer " ++ apiKey ]> headers
  else headers.

(** The headers of a Gemini request. *)
Definition jsonHeaders : gmap jsstring jsstring :=
  {[ js "Content-Type" := js "application/json" ]}.

(** [if (configProblem) throw new Error(configProblem)] *)
Definition throwIfProblem (configProblem : option jsstring) : Prog unit :=
  match configProblem with
  | Some problem => if truthy problem then Throw (Error problem) else Return tt
  | None => Return tt
  end.

(** [response.json()] *)
Definition readJson (response : Response) : Prog JsonBody :=
  match json response with
  | Some b => Return b
  | None => Throw InvalidJSON
  end.

(** [if (!response.ok) throw new Error(formatProviderHttpError(...))] *)
Definition throwUnlessOk (provider : Provider) (response : Response) : Prog unit :=
  if negb (ok response)
  then Throw (Error (formatProviderHttpError provider (status response) (text response)))
  else Return tt.

(** [body.candidates?.[0]?.content?.parts?.map((part) => part.text ?? '').join('').trim()];
    [None] is [undefined]. *)
Definition geminiContent (b : GeminiResponse) : option jsstring :=
  cs ← candidates b;
  c0 ← head cs;
  ct ← candidate_content c0;
  ps ← content_parts ct;
  Some (trim (join [] (map (fun p => default [] (part_text p)) ps))).

(** [body.choices?.[0]?.message?.content?.trim()] *)
Definition chatContent (b : ChatCompletionResponse) : option jsstring :=
  cs ← choices b;
  c0 ← head cs;
  m ← choice_message c0;
  c ← message_content m;
  Some (trim c).

(** [if (!content) throw new Error(message); return content] *)
Definition contentOrThrow (content : option jsstring) (message : jsstring)
    : Prog jsstring :=
  match content with
  | Some c => if truthy c then Return c else Throw (Error message)
  | None => Throw (Error message)
  end.

(** The [contents] of a Gemini request. *)
Definition geminiContents (history : list Message) : list GeminiEntry :=
  map (fun message =>
         mkEntry (match role message with assistant => js "model" | _ => js "user" end)
                 [mkTextPart (content message)])
      (List.filter (fun message =>
                      match role message with system => false | _ => true end)
                   history).

(** The [messages] of an OpenAI-compatible request. *)
Definition chatMessages (history : list Message) (settings : LlmSettings)
    : list ChatMessage :=
  mkChatMessage (js "system") (trim (systemPrompt settings))
  :: map (fun message => mkChatMessage (roleString (role message)) (content message))
         history.

(** [requestChatCompletion] *)
Definition requestChatCompletion (history : list Message) (settings : LlmSettings)
    : Prog jsstring :=
  let endpointValue := trim (endpoint settings) in
  let apiKey := resolveApiKey settings in
  if negb (truthy endpointValue) then
    Throw (Error (js "Connector endpoint is empty. Set a valid endpoint in Connector settings."))
  else
    throwIfProblem (validateProviderSettings endpointValue apiKey);;
    if isGeminiEndpoint (trim (endpoint settings)) then
      let modelEndpoint := withGeminiModel endpointValue (model settings) in
      endpoint ← withGeminiApiKey modelEndpoint apiKey;
      let payload :=
        mkGeminiPayload [mkTextPart (trim (systemPrompt settings))]
                        (geminiContents history) None in
      response ← safeFetch endpoint
                   (mkInit (js "POST") jsonHeaders (stringifyGemini payload)) Gemini;
      throwUnlessOk Gemini response;;
      body ← readJson response;
      contentOrThrow (geminiContent (asGeminiResponse body))
        (js "Gemini response did not include assistant content.")
    else
      let payload :=
        mkChatPayload (trim (model settings)) (chatMessages history settings)
                      (3 # 10)%Q None in
      let headers := buildHeaders settings in
      response ← safeFetch endpointValue
                   (mkInit (js "POST") headers (stringifyChat payload)) OpenAI_compatible;
      throwUnlessOk OpenAI_compatible response;;
      body ← readJson response;
      contentOrThrow (chatContent (asChatCompletionResponse body))
        (js "LLM response did not include assistant content.").

(** [testConnector] *)
Definition testConnector (settings : LlmSettings) : Prog jsstring :=
  let endpointValue := trim (endpoint settings) in
  let apiKey := resolveApiKey settings in
  if negb (truthy endpointValue) then
    Throw (Error (js "Connector endpoint is empty."))
  else
    throwIfProblem (validateProviderSettings endpointValue apiKey);;
    if isGeminiEndpoint (trim (endpoint settings)) then
      let modelEndpoint := withGeminiModel endpointValue (model settings) in
      endpoint ← withGeminiApiKey modelEndpoint apiKey;
      let payload :=
        mkGeminiPayload [mkTextPart (trim (systemPrompt settings))]
                        [mkEntry (js "user") [mkTextPart (js "Reply with: OK")]]
                        (Some (mkGenerationConfig 8 0%Q)) in
      response ← safeFetch endpoint
                   (mkInit (js "POST") jsonHeaders (stringifyGemini payload)) Gemini;
      throwUnlessOk Gemini response;;
      Return (js "Gemini connector reachable")
    else
      let payload :=
        mkChatPayload (trim (model settings))
                      [mkChatMessage (js "system") (trim (systemPrompt settings));
                       mkChatMessage (js "user") (js "Reply with: OK")]
                      0%Q (Some 8) in
      response ← safeFetch endpointValue
                   (mkInit (js "POST") (buildHeaders settings) (stringifyChat payload))
                   OpenAI_compatible;
      throwUnlessOk OpenAI_compatible response;;
      Return (js "Connector reachable").

End WithHost.
End Llm.

(** ** Notions used to state the properties *)

Module Spec.
Import JS RegExp Types Platform Automation Llm.

(** A string that does not start, or does not end, with white space. *)
Definition cleanStart (s : jsstring) : Prop :=
  match s with [] => True | c :: _ => isWhiteSpace c = false end.

Definition cleanEnd (s : jsstring) : Prop := cleanStart (rev s).

(** [p] is a prefix of [s], up to the case of Basic Latin letters when
    [ic] is set. *)
Fixpoint foldedPrefix (ic : bool) (p s : jsstring) : bool :=
  match p, s with
  | [], _ => true
  | _ :: _, [] => false
  | a :: p', b :: s' =>
      (canonicalize ic a =? canonicalize ic b) && foldedPrefix ic p' s'
  end.

(** A string with its Basic Latin letters in upper case. *)
Definition folded (s : jsstring) : jsstring := map (canonicalize true) s.

(** The length of the longest prefix of [s] whose units satisfy [p]. *)
Fixpoint spanLength (p : unit16 -> bool) (s : jsstring) : nat :=
  match s with
  | [] => O
  | c :: s' => if p c then S (spanLength p s') else O
  end.

(** The state of a matcher [n] units further. *)
Definition skip (n : nat) (x : MatchState) : MatchState :=
  mkState (endIndex x + n) (drop n (remaining x)) (captures x).

(** The model pattern read directly: the length of its match at the start
    of [rest], if there is one. *)
Definition modelMatchLength (rest : jsstring) : option nat :=
  if foldedPrefix true (js "/models/") rest then
    let tail := drop 8 rest in
    let n := spanLength segmentUnit tail in
    if Nat.eqb n 0 then None
    else Some (8 + n +
               (if foldedPrefix true (js ":generateContent") (drop n tail)
                then 16 else 0))%nat
  else None.

(** [old] is a text the model pattern matches when [post] follows it:
    [/models/] in any case, the longest non-empty run of units other than
    [:], [/] and [?], and [:generateContent] in any case when it is there. *)
Definition ModelSegment (old post : jsstring) : Prop :=
  exists hd seg opt,
    old = hd ++ seg ++ opt
    /\ folded hd = folded (js "/models/")
    /\ seg <> [] /\ Forall (fun c => segmentUnit c = true) seg
    /\ spanLength segmentUnit (opt ++ post) = 0%nat
    /\ (folded opt = folded (js ":generateContent")
        \/ (opt = [] /\ foldedPrefix true (js ":generateContent") post = false)).

(** The error kinds of the specification.  The code throws [Error]s that
    differ by their message only. *)
Inductive ErrorKind : Type :=
| ConfigError | NetworkError | RateLimited | AuthError | ProviderError | EmptyResponse.

(** The kind a message of [formatProviderHttpError] shows: the words that
    follow the name of the provider. *)
Definition httpErrorKind (provider : Provider) (message : jsstring) : ErrorKind :=
  if startsWith message (providerName provider ++ js " quota/rate limit reached (")
  then RateLimited
  else if startsWith message (providerName provider ++ js " authentication/permission failed (")
  then AuthError
  else ProviderError.

(** The messages of the two [ConfigError]s of the key check. *)
Definition geminiKeyProblem : jsstring :=
  js "Gemini preset expects a Google API key (usually starts with AIza).".

Definition openaiKeyProblem : jsstring :=
  js "OpenAI-compatible preset cannot use a Google Gemini key. Switch preset to Gemini API or provide a compatible provider key.".

(** The message of [EmptyResponse] on the Gemini path. *)
Definition geminiEmptyResponse : jsstring :=
  js "Gemini response did not include assistant content.".

(** The ids with a [case] of their own in [runAutomation]. *)
Definition builtin (taskId : jsstring) : bool :=
  existsb (strEq taskId)
    [js "summarize"; js "roadmap"; js "safety-check"; js "answer-web-questions";
     js "extract-links"; js "faq-generator"; js "code-extractor"; js "key-phrases"].

(** The request a program starts with, if it starts with one. *)
Definition posted {A : Type} (p : Prog A) : option (jsstring * RequestInit) :=
  match p with
  | Fetch url init _ => Some (url, init)
  | _ => None
  end.

Definition postedURL {A : Type} (p : Prog A) : option jsstring :=
  fst <$> posted p.

Section Stated.
Context `{Host}.

(** What [complete] does with the response of a Gemini request, and what
    [testConnector] does with the response of its Gemini probe. *)
Definition geminiReply (response : Response) : Prog jsstring :=
  throwUnlessOk Gemini response;;
  body ← readJson response;
  contentOrThrow (geminiContent (asGeminiResponse body))
    (js "Gemini response did not include assistant content.").

Definition geminiProbeReply (response : Response) : Prog jsstring :=
  throwUnlessOk Gemini response;;
  Return (js "Gemini connector reachable").

(** The sentence of the specification on the URL of a Gemini request, as
    it is written, in its two halves: whatever [complete] posts to holds
    the model of the settings in its model segment; and it is a URL with
    exactly one [key] parameter, the resolved key. *)
Definition posted_model_as_stated (history : list Message) (settings : LlmSettings)
    : Prop :=
  isGeminiEndpoint (trim (endpoint settings)) = true ->
  forall url init cont,
    requestChatCompletion history settings = Fetch url init cont ->
    includes url (js "/models/" ++ model settings ++ js ":generateContent") = true.

Definition posted_key_as_stated (history : list Message) (settings : LlmSettings)
    : Prop :=
  isGeminiEndpoint (trim (endpoint settings)) = true ->
  forall url init cont,
    requestChatCompletion history settings = Fetch url init cont ->
    exists u, newURL url = Some u
      /\ getAll (js "key") (searchParams u) = [resolveApiKey settings].

Definition posted_url_as_stated (history : list Message) (settings : LlmSettings)
    : Prop :=
  posted_model_as_stated history settings /\ posted_key_as_stated history settings.

(** The sentence on the key check, as it is written: the check is skipped
    for an endpoint that contains one of the two loopback addresses or for
    an empty key, and otherwise a key of the wrong shape makes [complete]
    throw. *)
Definition key_check_as_stated (history : list Message) (settings : LlmSettings)
    : Prop :=
  let e := trim (endpoint settings) in
  let k := resolveApiKey settings in
  e <> [] ->
  includes e (js "localhost:11434") = false ->
  includes e (js "127.0.0.1:11434") = false ->
  k <> [] ->
  (isGeminiEndpoint e = true -> startsWith k (js "AIza") = false ->
   exists message, requestChatCompletion history settings = Throw (Error message))
  /\ (isGeminiEndpoint e = false -> startsWith k (js "AIza") = true ->
      exists message, requestChatCompletion history settings = Throw (Error message)).

End Stated.

(** *** Sample inputs *)

Definition godPrompt : jsstring :=
  js "You are GOD, a concise and safe assistant focused on coding and automation.".

Definition geminiSettings : LlmSettings :=
  mkSettings
    (js "https://generativelanguage.googleapis.com/v1beta/models/gemini-1.5-flash:generateContent")
    (js "gemini-1.5-pro") (js "AIzaSyExampleKey") godPrompt.

(** The URL object of the endpoint of [geminiSettings] once the model is
    in it, on the reference platform. *)
Definition sampleURL : RefURL :=
  mkRefURL
    (js "https://generativelanguage.googleapis.com/v1beta/models/gemini-1.5-pro:generateContent")
    None None.

(** The same endpoint with a key of another provider. *)
Definition wrongKeySettings : LlmSettings :=
  mkSettings (endpoint geminiSettings) (model geminiSettings) (js "sk-example") godPrompt.

(** A Gemini endpoint that already carries a key, and no model. *)
Definition presetKeySettings : LlmSettings :=
  mkSettings
    (js "https://generativelanguage.googleapis.com/v1beta/models/gemini-1.5-flash:generateContent?key=AIzaSyOldKey")
    (js "") (js "AIzaSyNewKey") godPrompt.

(** The loopback endpoint of the default settings, its host in upper case. *)
Definition upperCaseLocalSettings : LlmSettings :=
  mkSettings (js "http://LOCALHOST:11434/v1/chat/completions")
    (js "tinyllama") (js "AIzaSyExampleKey") godPrompt.

Definition openaiSettings : LlmSettings :=
  mkSettings (js "https://api.openai.com/v1/chat/completions")
    (js "gpt-4o-mini") (js " sk-example ") godPrompt.

Definition blankSettings : LlmSettings :=
  mkSettings (js "   ") (js "tinyllama") (js "") godPrompt.

Definition sampleHistory : list Message :=
  [mkMessage (js "m1") system (js "Stay brief.") (js "2024-01-01T00:00:00Z");
   mkMessage (js "m2") user (js "Hello") (js "2024-01-01T00:00:01Z");
   mkMessage (js "m3") assistant (js "Hi!") (js "2024-01-01T00:00:02Z");
   mkMessage (js "m4") user (js "What next?") (js "2024-01-01T00:00:03Z")].

(** A Gemini response body with two parts. *)
Definition twoParts : JsonBody :=
  Build_JsonBody
    (Build_GeminiResponse
       (Some [Build_GeminiCandidate
                (Some (Build_GeminiContent
                         (Some [Build_GeminiPart (Some (js " Hello, "));
                                Build_GeminiPart (Some (js "world. "))])))]))
    (Build_ChatCompletionResponse None).

Definition okResponse : Response := mkResponse 200 (js "{}") (Some twoParts).

(** A 200 response whose body is empty and is not JSON. *)
Definition emptyOkResponse : Response := mkResponse 200 [] None.

End Spec.

(** ** Notions used to state further properties of the connector *)

Module ConnectorSpec.
Import JS RegExp Types Platform Llm Spec.

Section WithHost.
Context `{Host}.

(** The provider an endpoint is classified as, at each call. *)
Definition providerOf (settings : LlmSettings) : Provider :=
  if isGeminiEndpoint (trim (endpoint settings)) then Gemini else OpenAI_compatible.

(** What [requestChatCompletion] does with the response of an
    OpenAI-compatible request. *)
Definition chatReply (response : Response) : Prog jsstring :=
  throwUnlessOk OpenAI_compatible response;;
  body ← readJson response;
  contentOrThrow (chatContent (asChatCompletionResponse body))
    (js "LLM response did not include assistant content.").

(** What [requestChatCompletion] and [testConnector] do with a response, by
    provider. *)
Definition reply (provider : Provider) (response : Response) : Prog jsstring :=
  match provider with
  | Gemini => geminiReply response
  | OpenAI_compatible => chatReply response
  end.

Definition probeReply (provider : Provider) (response : Response) : Prog jsstring :=
  throwUnlessOk provider response;;
  Return (match provider with
          | Gemini => js "Gemini connector reachable"
          | OpenAI_compatible => js "Connector reachable"
          end).

End WithHost.

(** A program that issues no request. *)
Definition quiet {A : Type} (p : Prog A) : Prop :=
  match p with Fetch _ _ _ => False | _ => True end.

(** The message of a rejected [fetch], as [safeFetch] reads it. *)
Definition rejection (settled : Settled) : option jsstring :=
  match settled with
  | Resolved _ => None
  | RejectedWith m => Some m
  | RejectedOther => Some (js "Unknown network error")
  end.

(** Where a request goes and how: its URL, method and headers. *)
Definition target {A : Type} (p : Prog A)
    : option (jsstring * jsstring * gmap jsstring jsstring) :=
  match p with
  | Fetch url init _ => Some (url, method init, headers init)
  | _ => None
  end.

(** The message of [EmptyResponse] on the OpenAI-compatible path. *)
Definition chatEmptyResponse : jsstring :=
  js "LLM response did not include assistant content.".

(** *** More sample inputs *)

(** A Gemini endpoint written without its scheme. *)
Definition schemelessSettings : LlmSettings :=
  mkSettings
    (js "generativelanguage.googleapis.com/v1beta/models/gemini-1.5-flash:generateContent")
    (js "gemini-1.5-pro") (js "AIzaSyExampleKey") godPrompt.

(** A chat completion with one choice. *)
Definition oneChoice : JsonBody :=
  Build_JsonBody
    (Build_GeminiResponse None)
    (Build_ChatCompletionResponse
       (Some [Build_Choice
                (Some (Build_ChoiceMessage (Some (js "assistant"))
                                           (Some (js " Hello there. "))))])).

Definition chatOkResponse : Response := mkResponse 200 (js "{}") (Some oneChoice).

Definition unauthorizedResponse : Response :=
  mkResponse 401 (js "invalid api key") None.

End ConnectorSpec.

(** ** Notions used to state further properties of the automation engine *)

Module AutomationSpec.
Import JS RegExp Types Platform Automation Spec.

(** The strings a pattern describes: the language of the pattern, with
    letters compared through [canonicalize].  A quantifier is unrolled one
    iteration at a time, as [RepeatMatcher] does. *)
Inductive Lang (ic : bool) : regex -> jsstring -> Prop :=
| Lang_Empty : Lang ic Empty []
| Lang_Char ch a :
    canonicalize ic ch = canonicalize ic a -> Lang ic (Char ch) [a]
| Lang_CharSet (p : unit16 -> bool) a : p a = true -> Lang ic (CharSet p) [a]
| Lang_Seq r1 r2 w1 w2 :
    Lang ic r1 w1 -> Lang ic r2 w2 -> Lang ic (Seq r1 r2) (w1 ++ w2)
| Lang_Alt_l r1 r2 w : Lang ic r1 w -> Lang ic (Alt r1 r2) w
| Lang_Alt_r r1 r2 w : Lang ic r2 w -> Lang ic (Alt r1 r2) w
| Lang_Repeat_done r max greedy : Lang ic (Repeat r 0 max greedy) []
| Lang_Repeat_full r min greedy : Lang ic (Repeat r min (Some 0%nat) greedy) []
| Lang_Repeat_more r min max greedy w1 w2 :
    max <> Some 0%nat ->
    Lang ic r w1 ->
    Lang ic (Repeat r (Nat.pred min) (Nat.pred <$> max) greedy) w2 ->
    Lang ic (Repeat r min max greedy) (w1 ++ w2)
| Lang_Group n r w : Lang ic r w -> Lang ic (Group n r) w.

(** What a matcher that succeeds has consumed is a string of the pattern,
    and the continuation succeeded from there. *)
Definition SoundMatcher (ic : bool) (r : regex) (m : Matcher) : Prop :=
  forall x c z, m x c = Some z ->
    exists y w,
      remaining x = w ++ remaining y
      /\ endIndex y = (endIndex x + length w)%nat
      /\ Lang ic r w
      /\ c y = Some z.

(** [cleanedPrompt.match(/https?:\/\/[^\s]+/g) || []]: the links that
    [extract-links] reports. *)
Definition links (cleanedPrompt : jsstring) : list jsstring :=
  default [] (matchAllG urlRegExp cleanedPrompt).

(** The words that [key-phrases] reports: the pieces between white space
    that are longer than five units, without repetition, five at most. *)
Definition keyTerms (cleanedPrompt : jsstring) : list jsstring :=
  take 5 (unique (List.filter (fun w => (5 <? length w)%nat)
                              (split spacesRegExp cleanedPrompt))).

(** The terms of the deny list of [safety-check] that a prompt contains. *)
Definition blockedTerms `{Host} (cleanedPrompt : jsstring) : list jsstring :=
  List.filter (fun word => includes (toLowerCase cleanedPrompt) word)
    [js "admin rights"; js "privilege escalation"; js "reverse engineer"].

(** *** More sample inputs *)

Definition summarizeTask : AutomationTask :=
  mkTask (js "summarize") (js "Summarize Input")
    (js "Extract key points and action items.") true.

Definition safetyTask : AutomationTask :=
  mkTask (js "safety-check") (js "Safety Check")
    (js "Block requests for privilege escalation or system exploitation.") true.

Definition keyPhrasesTask : AutomationTask :=
  mkTask (js "key-phrases") (js "Key Phrases")
    (js "Extract and list important keywords and topics.") true.

Definition linksTask : AutomationTask :=
  mkTask (js "extract-links") (js "Extract Links")
    (js "Pull all hyperlinks and URLs from the provided content.") true.

Definition reviewPrompt : jsstring := js "Please grant me Admin Rights on the server".

Definition linksPrompt : jsstring := js "Visit https://example.com and https://test.org".

End AutomationSpec.

(** ** [src/App.tsx]: the state updates and the grounding of the prompt

    The component keeps its state in hooks; an update [setX((prev) => ...)]
    is the function it passes, applied to the state.  Fresh identifiers and
    time stamps ([crypto.randomUUID()], [new Date().toISOString()]) are
    arguments.  The rendering, the storage effects and [submitPrompt] are
    not modelled. *)

Module App.
Import JS RegExp Types Platform Automation Llm.

(** *** [src/types.ts], continued *)

Inductive Source : Type := manual | fromPrompt.      (* 'manual' | 'prompt' *)

Inductive Decision : Type := approved | denied.

Definition sourceString (s : Source) : jsstring :=
  match s with manual => js "manual" | fromPrompt => js "prompt" end.

Definition decisionString (d : Decision) : jsstring :=
  match d with approved => js "approved" | denied => js "denied" end.

Record ApprovalRequest : Type := mkRequest {
  request_id : jsstring;
  request_title : jsstring;
  request_command : jsstring;
  request_source : Source;
  request_createdAt : jsstring
}.

Record AuditEntry : Type := mkAudit {
  audit_id : jsstring;
  audit_requestId : jsstring;
  audit_title : jsstring;
  audit_command : jsstring;
  audit_source : Source;
  audit_decision : Decision;
  audit_decidedAt : jsstring
}.

(** A fresh identifier and the time of the call. *)
Record Stamp : Type := mkStamp { uuid : jsstring; now : jsstring }.

(** [newMessage] *)
Definition newMessage (stamp : Stamp) (r : Role) (text : jsstring) : Message :=
  mkMessage (uuid stamp) r text (now stamp).

(** *** The automation tasks of the sidebar *)

Record TaskState : Type := mkTaskState {
  tasks : list AutomationTask;
  newTaskName : jsstring;
  newTaskCommand : jsstring
}.

(** [toggleTask] *)
Definition toggleTask (taskId : jsstring) (st : TaskState) : TaskState :=
  mkTaskState
    (map (fun task =>
            if strEq (id task) taskId
            then mkTask (id task) (name task) (command task) (negb (enabled task))
            else task)
         (tasks st))
    (newTaskName st) (newTaskCommand st).

(** [addTask] *)
Definition addTask (fresh : jsstring) (st : TaskState) : TaskState :=
  let name := trim (newTaskName st) in
  let command := trim (newTaskCommand st) in
  if negb (truthy name) || negb (truthy command) then st
  else mkTaskState (tasks st ++ [mkTask fresh name command true]) [] [].

(** [removeTask] *)
Definition removeTask (taskId : jsstring) (st : TaskState) : TaskState :=
  mkTaskState (List.filter (fun task => negb (strEq (id task) taskId)) (tasks st))
              (newTaskName st) (newTaskCommand st).

(** [resetTasksToDefaults] *)
Definition resetTasksToDefaults (st : TaskState) : TaskState :=
  mkTaskState defaultTasks [] [].

(** *** The approval queue and the audit log *)

Record ReviewState : Type := mkReview {
  pendingRequests : list ApprovalRequest;
  auditLog : list AuditEntry;
  messages : list Message;
  requestTitle : jsstring;
  requestCommand : jsstring
}.

(** [addManualRequest] *)
Definition addManualRequest (stamp : Stamp) (st : ReviewState) : ReviewState :=
  let title := trim (requestTitle st) in
  let command := trim (requestCommand st) in
  if negb (truthy title) || negb (truthy command) then st
  else
    let request := mkRequest (uuid stamp) title command manual (now stamp) in
    mkReview (request :: pendingRequests st) (auditLog st) (messages st) [] [].

Section Decide.
(** [String.prototype.toUpperCase] *)
Variable toUpperCase : jsstring -> jsstring.

(** [decideRequest]: the update of the queue, with the updates of the log
    and of the messages that it triggers. *)
Definition decideRequest (requestId : jsstring) (decision : Decision)
    (entryStamp messageStamp : Stamp) (st : ReviewState) : ReviewState :=
  match List.find (fun request => strEq (request_id request) requestId)
                  (pendingRequests st) with
  | None => st
  | Some found =>
      let entry :=
        mkAudit (uuid entryStamp) (request_id found) (request_title found)
                (request_command found) (request_source found) decision
                (now entryStamp) in
      mkReview
        (List.filter (fun request => negb (strEq (request_id request) requestId))
                     (pendingRequests st))
        (take 120 (entry :: auditLog st))
        (messages st
         ++ [newMessage messageStamp system
               (toUpperCase (decisionString decision) ++ js ": " ++ request_title found
                ++ nl ++ js "Command: " ++ request_command found
                ++ nl ++ js "Source: " ++ sourceString (request_source found))])
        (requestTitle st) (requestCommand st)
  end.

End Decide.

(** [clearPendingRequests], [clearAuditLog], [clearAllReviewData] *)
Definition clearPendingRequests (st : ReviewState) : ReviewState :=
  mkReview [] (auditLog st) (messages st) (requestTitle st) (requestCommand st).

Definition clearAuditLog (st : ReviewState) : ReviewState :=
  mkReview (pendingRequests st) [] (messages st) (requestTitle st) (requestCommand st).

Definition clearAllReviewData (st : ReviewState) : ReviewState :=
  mkReview [] [] (messages st) (requestTitle st) (requestCommand st).

(** *** Grounding the prompt in the text of a page *)

(** [s.replace(re, replacement)] for a pattern with [g] and without
    groups: every match is replaced, the text between the matches is
    kept. *)
Fixpoint spliceMatches (s : jsstring) (position : nat) (ms : list MatchResult)
    (replacement : jsstring) : jsstring :=
  match ms with
  | [] => drop position s
  | m :: ms' =>
      substring position (index m) s
      ++ GetSubstitution (matched s m) (take (index m) s) (drop (lastIndex m) s)
           replacement
      ++ spliceMatches s (lastIndex m) ms' replacement
  end.

Definition replaceG (re : RegExp) (replacement : jsstring) (s : jsstring) : jsstring :=
  spliceMatches s 0 (matchesFrom re (S (S (length s))) s 0) replacement.

(** [/https?:\/\/[^\s]+/i] *)
Definition firstUrlRegExp : RegExp := mkRegExp (source urlRegExp) true.

(** [extractFirstUrl]; [None] is [null]. *)
Definition extractFirstUrl (value : jsstring) : option jsstring :=
  match exec firstUrlRegExp value with
  | Some m => Some (matched value m)
  | None => None
  end.

(** What [buildGroundedPromptFromUrl] resolves to. *)
Record Grounded : Type := mkGrounded {
  promptForModel : jsstring;
  blockerMessage : option jsstring
}.

(** The function is done, or it waits for one [GET]. *)
Inductive PageProg : Type :=
| Done (result : Grounded)
| Get (url : jsstring) (k : Settled -> Grounded).

Definition importantNote : jsstring :=
  js "Important: Answer ONLY using the grounding content above. If an answer is not present, respond: "
  ++ dquote ++ js "Not found in provided page content." ++ dquote.

Section Grounding.
(** [new DOMParser().parseFromString(html, 'text/html')], the removal of
    the [script], [style] and [noscript] elements, and
    [doc.body?.innerText ?? '']. *)
Variable bodyInnerText : jsstring -> jsstring.

(** [htmlToText] *)
Definition htmlToText (html : jsstring) : jsstring :=
  trim (replaceG spacesRegExp (js " ") (bodyInnerText html)).

(** The [try]/[catch] of [buildGroundedPromptFromUrl] around the [GET]. *)
Definition groundFromPage (originalPrompt : jsstring) (settled : Settled) : Grounded :=
  match settled with
  | Resolved response =>
      if negb (ok response) then
        mkGrounded originalPrompt
          (Some (js "I couldn’t read that webpage directly (HTTP "
                 ++ Number_toString (status response)
                 ++ js "). Paste the page text here and I’ll answer from it exactly."))
      else
        let pageText := htmlToText (text response) in
        if negb (truthy pageText) || (length pageText <? 120)%nat then
          mkGrounded originalPrompt
            (Some (js "I couldn’t extract readable text from that webpage (possibly login/CORS-protected). Paste the page text here and I’ll answer precisely from it."))
        else
          let clipped := slice0 12000 pageText in
          mkGrounded
            (originalPrompt ++ nl ++ nl ++ js "Grounding content from URL:" ++ nl
             ++ clipped ++ nl ++ nl ++ importantNote)
            None
  | _ =>
      mkGrounded originalPrompt
        (Some (js "I can’t access that webpage from the browser environment (likely CORS/auth restriction). Paste the page text here and I will answer without making things up."))
  end.

(** [buildGroundedPromptFromUrl] *)
Definition buildGroundedPromptFromUrl (originalPrompt manualPageText : jsstring)
    : PageProg :=
  let pasted := trim manualPageText in
  if (0 <? length pasted)%nat then
    let clipped := slice0 16000 pasted in
    Done (mkGrounded
            (originalPrompt ++ nl ++ nl ++ js "Grounding content (pasted by user):" ++ nl
             ++ clipped ++ nl ++ nl ++ importantNote)
            None)
  else
    match extractFirstUrl originalPrompt with
    | None => Done (mkGrounded originalPrompt None)
    | Some url => Get url (groundFromPage originalPrompt)
    end.

End Grounding.

End App.

(** ** Notions and sample inputs for the state updates *)

Module AppSpec.
Import JS RegExp Types Platform Automation Llm Spec App.

(** Upper case of Basic Latin letters, for the reference platform. *)
Definition upperUnit (c : unit16) : unit16 :=
  if (97 <=? c) && (c <=? 122) then c - 32 else c.

Definition sampleTasks : TaskState :=
  mkTaskState defaultTasks (js "  Lint  ") (js " Run the linter. ").

Definition sampleRequest : ApprovalRequest :=
  mkRequest (js "r-1") (js "Install driver") (js "setup.exe /quiet") fromPrompt
            (js "2024-01-01T00:00:00Z").

Definition sampleReview : ReviewState :=
  mkReview [sampleRequest] [] [] (js " Reset password ") (js " net user bob * ").

Definition stampA : Stamp := mkStamp (js "id-a") (js "2024-01-02T00:00:00Z").
Definition stampB : Stamp := mkStamp (js "id-b") (js "2024-01-02T00:00:01Z").
Definition stampC : Stamp := mkStamp (js "id-c") (js "2024-01-02T00:00:02Z").

(** Every run of white space made one space: what
    [replace(/\s+/g, ' ')] is to give.  [inRun] tells that the unit before
    was white space. *)
Fixpoint collapseFrom (inRun : bool) (s : jsstring) : jsstring :=
  match s with
  | [] => []
  | c :: s' =>
      if isWhiteSpace c
      then (if inRun then collapseFrom true s' else 32 :: collapseFrom true s')
      else c :: collapseFrom false s'
  end.

Definition collapse (s : jsstring) : jsstring := collapseFrom false s.

(** No white space is next to white space. *)
Fixpoint spacedOnce (s : jsstring) : Prop :=
  match s with
  | [] => True
  | c :: s' => (isWhiteSpace c = true -> cleanStart s') /\ spacedOnce s'
  end.

(** A page whose visible text is the document as it is. *)
Definition plainText (html : jsstring) : jsstring := html.

Definition notFoundResponse : Response := mkResponse 404 (js "Not Found") None.

Definition mixedCasePrompt : jsstring :=
  js "Summarise HTTPS://Example.com/a?b=1 please".

Definition longPage : jsstring :=
  js "The Rocq Prover is an interactive theorem prover. It lets you write definitions, state theorems and check proofs by machine, step by step.".

Definition okPage : Response := mkResponse 200 longPage None.

Definition samplePage : jsstring :=
  js "  Rocq   is a proof
	assistant.  ".

End AppSpec.

(** ** Facts about strings *)

Module JSFacts.
Import JS Spec.

Lemma truthy_true (s : jsstring) : truthy s = true <-> s <> [].
Proof. destruct s; simpl; split; congruence. Qed.

Lemma truthy_false (s : jsstring) : truthy s = false <-> s = [].
Proof. destruct s; simpl; split; congruence. Qed.

Lemma trimStart_clean s : cleanStart (trimStart s).
Proof.
  induction s as [|c s IH]; simpl; [done|].
  destruct (isWhiteSpace c) eqn:E; [done|]. simpl. done.
Qed.

Lemma trimStart_id s : cleanStart s -> trimStart s = s.
Proof. destruct s as [|c s]; simpl; [done|]. by intros ->. Qed.

Lemma trimStart_suffix s : exists ws, s = ws ++ trimStart s.
Proof.
  induction s as [|c s [ws IH]]; simpl; [by exists []|].
  destruct (isWhiteSpace c).
  - exists (c :: ws). simpl. by f_equal.
  - by exists [].
Qed.

Lemma trimStart_snoc s c :
  isWhiteSpace c = false -> exists t, trimStart (s ++ [c]) = t ++ [c].
Proof.
  intros Hc. induction s as [|a s [t IH]]; simpl.
  - rewrite Hc. by exists [].
  - destruct (isWhiteSpace a); [by exists t|]. by exists (a :: s).
Qed.

Lemma trimEnd_cleanEnd s : cleanEnd (trimEnd s).
Proof. unfold cleanEnd, trimEnd. rewrite rev_involutive. apply trimStart_clean. Qed.

Lemma trimEnd_id s : cleanEnd s -> trimEnd s = s.
Proof.
  unfold cleanEnd, trimEnd. intros Hs. rewrite trimStart_id by done.
  apply rev_involutive.
Qed.

Lemma trimEnd_cleanStart s : cleanStart s -> cleanStart (trimEnd s).
Proof.
  destruct s as [|c s]; [done|]. simpl. intros Hc.
  unfold trimEnd. simpl.
  destruct (trimStart_snoc (rev s) c Hc) as [t ->].
  rewrite rev_app_distr. simpl. done.
Qed.

Lemma trim_clean s : cleanStart (trim s) /\ cleanEnd (trim s).
Proof.
  unfold trim. split.
  - apply trimEnd_cleanStart, trimStart_clean.
  - apply trimEnd_cleanEnd.
Qed.

(** Trimming twice is trimming once. *)
Lemma trim_idemp s : trim (trim s) = trim s.
Proof.
  destruct (trim_clean s) as [Hs He].
  unfold trim at 1. rewrite (trimStart_id _ Hs). by apply trimEnd_id.
Qed.

End JSFacts.

(** ** Facts about the matcher *)

Module RegExpFacts.
Import JS RegExp Types Platform Llm Spec.

Lemma skip_0 x : skip 0 x = x.
Proof. destruct x. unfold skip. simpl. by rewrite Nat.add_0_r. Qed.

Lemma skip_advance x a rest n :
  remaining x = a :: rest -> skip n (advance x rest) = skip (S n) x.
Proof.
  destruct x as [i r cs]. simpl. intros ->. unfold skip, advance. simpl.
  f_equal. lia.
Qed.

Lemma compile_lit ic s x c :
  compile ic (lit s) x c =
  if foldedPrefix ic s (remaining x) then c (skip (length s) x) else None.
Proof.
  revert x. induction s as [|a s IH]; intros x; simpl.
  - by rewrite skip_0.
  - destruct (remaining x) as [|b rest] eqn:E; [done|].
    destruct (canonicalize ic a =? canonicalize ic b); simpl; [|done].
    rewrite IH. simpl. by rewrite (skip_advance x b rest).
Qed.

Lemma RepeatMatcher_step m fuel min max greedy x c :
  RepeatMatcher m (S fuel) min max greedy x c =
  match max with
  | Some O => c x
  | _ =>
      let d : Continuation := fun y =>
        if Nat.eqb min 0 && Nat.eqb (endIndex y) (endIndex x) then None
        else RepeatMatcher m fuel (Nat.pred min) (Nat.pred <$> max) greedy y c in
      if negb (Nat.eqb min 0) then m x d
      else if greedy then
        match m x d with Some z => Some z | None => c x end
      else
        match c x with Some z => Some z | None => m x d end
  end.
Proof. reflexivity. Qed.

Lemma compile_set ic p x c :
  compile ic (CharSet p) x c =
  match remaining x with
  | [] => None
  | a :: rest => if p a then c (advance x rest) else None
  end.
Proof. reflexivity. Qed.

Lemma compile_repeat ic r min max greedy x c :
  compile ic (Repeat r min max greedy) x c =
  RepeatMatcher (compile ic r) (S (min + length (remaining x))) min max greedy x c.
Proof. reflexivity. Qed.

Lemma eqb_succ_self n : Nat.eqb (S n) n = false.
Proof. apply Nat.eqb_neq. lia. Qed.

Lemma RepeatMatcher_star_set ic p fuel x c :
  (length (remaining x) < fuel)%nat ->
  (forall y, c y <> None) ->
  RepeatMatcher (compile ic (CharSet p)) fuel 0 None true x c
  = c (skip (spanLength p (remaining x)) x).
Proof.
  revert x. induction fuel as [|fuel IH]; intros x Hfuel Hc; [lia|].
  rewrite RepeatMatcher_step. cbn zeta. cbn [Nat.eqb negb andb].
  rewrite compile_set.
  destruct (remaining x) as [|a rest] eqn:E; cbn [spanLength].
  - by rewrite skip_0.
  - destruct (p a) eqn:Ea; [|by rewrite skip_0].
    cbn [advance endIndex]. rewrite eqb_succ_self.
    cbn [Nat.pred fmap option_fmap option_map].
    rewrite IH; [|simpl in *; lia|done].
    cbn [remaining]. rewrite (skip_advance x a rest) by done.
    destruct (c _) eqn:Ec; [done|]. by apply Hc in Ec.
Qed.

Lemma compile_plus_set ic p x c :
  (forall y, c y <> None) ->
  compile ic (Plus (CharSet p)) x c =
  if Nat.eqb (spanLength p (remaining x)) 0 then None
  else c (skip (spanLength p (remaining x)) x).
Proof.
  intros Hc. unfold Plus. rewrite compile_repeat, RepeatMatcher_step.
  cbn zeta. cbn [Nat.eqb negb andb Nat.pred fmap option_fmap option_map].
  rewrite compile_set.
  destruct (remaining x) as [|a rest] eqn:E; cbn [spanLength]; [done|].
  destruct (p a) eqn:Ea; cbn [Nat.eqb]; [|done].
  rewrite RepeatMatcher_star_set; [|simpl; lia|done].
  cbn [advance remaining]. by rewrite (skip_advance x a rest).
Qed.

Lemma compile_opt_lit ic t x c :
  t <> [] ->
  compile ic (Opt (lit t)) x c =
  if foldedPrefix ic t (remaining x)
  then match c (skip (length t) x) with Some z => Some z | None => c x end
  else c x.
Proof.
  intros Ht. unfold Opt. rewrite compile_repeat, RepeatMatcher_step.
  cbn zeta. cbn [Nat.eqb negb andb Nat.pred fmap option_fmap option_map].
  rewrite compile_lit.
  destruct (foldedPrefix ic t (remaining x)) eqn:Ep; [|done].
  assert (Nat.eqb (endIndex (skip (length t) x)) (endIndex x) = false) as ->.
  { apply Nat.eqb_neq. destruct t; [done|]. simpl. lia. }
  destruct (remaining x) as [|b rest] eqn:E.
  - destruct t; done.
  - cbn [length Nat.add]. by rewrite RepeatMatcher_step.
Qed.

Lemma compile_seq ic r1 r2 x c :
  compile ic (Seq r1 r2) x c = compile ic r1 x (fun y => compile ic r2 y c).
Proof. reflexivity. Qed.

Lemma matchHere_model i rest :
  matchHere modelRegExp i rest
  = (fun n => mkMatch i (i + n) []) <$> modelMatchLength rest.
Proof.
  unfold matchHere, modelRegExp, modelMatchLength. cbn [source ignoreCase].
  rewrite compile_seq, compile_lit. cbn [remaining].
  destruct (foldedPrefix true (js "/models/") rest) eqn:Ehd; [|done].
  rewrite compile_seq, compile_plus_set.
  2:{ intros y. rewrite compile_opt_lit by done.
      by destruct (foldedPrefix true (js ":generateContent") (remaining y)). }
  change (length (js "/models/")) with 8%nat.
  cbn [skip remaining endIndex captures].
  fold segmentUnit.
  destruct (Nat.eqb (spanLength segmentUnit (drop 8 rest)) 0) eqn:En; [done|].
  rewrite compile_opt_lit by done.
  cbn [skip remaining endIndex captures].
  change (length (js ":generateContent")) with 16%nat.
  destruct (foldedPrefix true (js ":generateContent") _); cbn; do 2 f_equal; lia.
Qed.

(** What [execFrom] finds is the first index at which [matchHere] succeeds. *)
Lemma execFrom_Some re i rest m :
  execFrom re i rest = Some m ->
  exists k, (k <= length rest)%nat
    /\ matchHere re (i + k) (drop k rest) = Some m
    /\ forall j, (j < k)%nat -> matchHere re (i + j) (drop j rest) = None.
Proof.
  revert i. induction rest as [|a rest IH]; intros i; simpl.
  - destruct (matchHere re i []) eqn:E; [|done]. intros [= <-].
    exists 0%nat. rewrite Nat.add_0_r. split; [done|]. split; [done|]. lia.
  - destruct (matchHere re i (a :: rest)) eqn:E.
    + intros [= <-]. exists 0%nat. rewrite Nat.add_0_r. simpl.
      split; [lia|]. split; [done|]. lia.
    + intros Hm. destruct (IH _ Hm) as (k & Hk & Hat & Hbefore).
      exists (S k). split; [lia|]. split.
      * simpl. by replace (i + S k)%nat with (S i + k)%nat by lia.
      * intros [|j] Hj; simpl.
        -- by rewrite Nat.add_0_r.
        -- replace (i + S j)%nat with (S i + j)%nat by lia. apply Hbefore. lia.
Qed.

Lemma execFrom_None re i rest :
  execFrom re i rest = None ->
  forall j, (j <= length rest)%nat -> matchHere re (i + j) (drop j rest) = None.
Proof.
  revert i. induction rest as [|a rest IH]; intros i; simpl.
  - destruct (matchHere re i []) eqn:E; [done|]. intros _ j Hj.
    assert (j = 0)%nat as -> by lia. by rewrite Nat.add_0_r.
  - destruct (matchHere re i (a :: rest)) eqn:E; [done|]. intros Hm [|j] Hj.
    + by rewrite Nat.add_0_r.
    + simpl. replace (i + S j)%nat with (S i + j)%nat by lia. apply IH; [done|lia].
Qed.

Lemma GetSubstitution_plain m b a r :
  Forall (fun c => c <> 36) r -> GetSubstitution m b a r = r.
Proof.
  induction 1 as [|c r Hc Hr IH]; simpl; [done|].
  apply N.eqb_neq in Hc. rewrite Hc. by rewrite IH.
Qed.

Lemma foldedPrefix_true ic p s :
  foldedPrefix ic p s = true ->
  s = take (length p) s ++ drop (length p) s
  /\ length (take (length p) s) = length p
  /\ map (canonicalize ic) (take (length p) s) = map (canonicalize ic) p.
Proof.
  revert s. induction p as [|a p IH]; intros s; simpl.
  - intros _. by rewrite ?take_0, ?drop_0.
  - destruct s as [|b s]; [done|]. intros [Hab Hp]%andb_prop.
    apply N.eqb_eq in Hab. destruct (IH _ Hp) as (E1 & E2 & E3). simpl.
    split; [by rewrite take_drop|]. split; [by rewrite E2|]. by rewrite Hab, E3.
Qed.

Lemma spanLength_take p s :
  Forall (fun c => p c = true) (take (spanLength p s) s).
Proof.
  induction s as [|c s IH]; simpl; [done|].
  destruct (p c) eqn:E; simpl; [|done]. by constructor.
Qed.

Lemma spanLength_drop p s : spanLength p (drop (spanLength p s) s) = 0%nat.
Proof.
  induction s as [|c s IH]; simpl; [done|].
  destruct (p c) eqn:E; simpl; [done|]. by rewrite E.
Qed.

Lemma spanLength_le p s : (spanLength p s <= length s)%nat.
Proof. induction s as [|c s IH]; simpl; [done|]. destruct (p c); simpl; lia. Qed.

Lemma modelMatchLength_Some rest n :
  modelMatchLength rest = Some n ->
  exists old post, rest = old ++ post /\ length old = n /\ ModelSegment old post.
Proof.
  unfold modelMatchLength.
  destruct (foldedPrefix true (js "/models/") rest) eqn:Ehd; [|done].
  apply foldedPrefix_true in Ehd as (E1 & E2 & E3).
  change (length (js "/models/")) with 8%nat in *.
  set (tail := drop 8 rest) in *.
  set (k := spanLength segmentUnit tail).
  destruct (Nat.eqb k 0) eqn:Ek; [done|]. apply Nat.eqb_neq in Ek.
  pose proof (spanLength_le segmentUnit tail) as Hle. fold k in Hle.
  assert (length (take k tail) = k) as Hk by (rewrite length_take; lia).
  destruct (foldedPrefix true (js ":generateContent") (drop k tail)) eqn:Eopt;
    intros [= <-].
  - apply foldedPrefix_true in Eopt as (F1 & F2 & F3).
    change (length (js ":generateContent")) with 16%nat in *.
    exists (take 8 rest ++ take k tail ++ take 16 (drop k tail)), (drop 16 (drop k tail)).
    split; [|split].
    + rewrite <- !app_assoc, <- F1, take_drop. done.
    + rewrite !length_app, E2, Hk, F2. lia.
    + exists (take 8 rest), (take k tail), (take 16 (drop k tail)).
      split; [done|]. split; [done|]. split.
      { intros E. rewrite E in Hk. simpl in Hk. lia. }
      split; [apply spanLength_take|]. split; [|by left].
      rewrite <- F1. apply spanLength_drop.
  - exists (take 8 rest ++ take k tail ++ []), (drop k tail).
    split; [|split].
    + rewrite app_nil_r, <- app_assoc, take_drop. done.
    + rewrite app_nil_r, length_app, E2, Hk. lia.
    + exists (take 8 rest), (take k tail), []. 
      split; [done|]. split; [done|]. split.
      { intros E. rewrite E in Hk. simpl in Hk. lia. }
      split; [apply spanLength_take|]. split; [apply spanLength_drop|]. by right.
Qed.

Section WithHost.
Context `{Host}.

Lemma withGeminiModel_shape e model :
  trim model <> [] ->
  Forall (fun c => c <> 36) (trim model) ->
  (withGeminiModel e model = e
   /\ forall j, (j <= length e)%nat -> modelMatchLength (drop j e) = None)
  \/ (exists pre old post,
        e = pre ++ old ++ post
        /\ ModelSegment old post
        /\ (forall j, (j < length pre)%nat -> modelMatchLength (drop j e) = None)
        /\ withGeminiModel e model
           = pre ++ (js "/models/" ++ trim model ++ js ":generateContent") ++ post).
Proof.
  intros Hm Hplain. unfold withGeminiModel.
  apply JSFacts.truthy_true in Hm as Ht. rewrite Ht. cbn [negb].
  unfold replace, exec. destruct (execFrom modelRegExp 0 e) as [mt|] eqn:E.
  - right. apply execFrom_Some in E as (k & Hk & Hat & Hbefore).
    rewrite matchHere_model in Hat. cbn [Nat.add] in Hat.
    destruct (modelMatchLength (drop k e)) as [n|] eqn:En; [|done].
    injection Hat as <-. 
    apply modelMatchLength_Some in En as (old & post & Hsplit & Hlen & Hseg).
    exists (take k e), old, post. 
    assert (length (take k e) = k) as Hpre by (rewrite length_take; lia).
    split; [by rewrite <- Hsplit, take_drop|]. split; [done|]. split.
    + intros j Hj. rewrite Hpre in Hj. specialize (Hbefore j Hj).
      rewrite matchHere_model in Hbefore.
      by destruct (modelMatchLength (drop j e)).
    + cbn [index lastIndex]. rewrite GetSubstitution_plain.
      * do 2 f_equal. rewrite <- drop_drop, Hsplit, <- Hlen. apply drop_app_length.
      * rewrite !Forall_app. split; [|split]; [|done|].
        all: vm_compute; repeat (constructor; [discriminate|]); constructor.
  - left. split; [done|]. intros j Hj.
    pose proof (execFrom_None _ _ _ E j Hj) as Hn. rewrite matchHere_model in Hn.
    by destruct (modelMatchLength (drop j e)).
Qed.
End WithHost.

End RegExpFacts.

(** ** The connector dispatcher *)

Module LlmFacts.
Import JS RegExp Types Platform Llm Spec JSFacts.

Lemma startsWith_app p s : startsWith (p ++ s) p = true.
Proof. induction p as [|a p IH]; simpl; [done|]. by rewrite N.eqb_refl. Qed.

Lemma includes_here s p : startsWith s p = true -> includes s p = true.
Proof. destruct s; simpl; by intros ->. Qed.

Lemma includes_start b c : includes (b ++ c) b = true.
Proof. apply includes_here, startsWith_app. Qed.

Lemma includes_refl b : includes b b = true.
Proof. rewrite <- (app_nil_r b) at 1. apply includes_start. Qed.

Lemma includes_skip a s p : includes s p = true -> includes (a ++ s) p = true.
Proof.
  intros Hs. induction a as [|x a IH]; simpl; [done|].
  rewrite IH. apply orb_true_r.
Qed.

Lemma getAll_app name l1 l2 : getAll name (l1 ++ l2) = getAll name l1 ++ getAll name l2.
Proof. unfold getAll. by rewrite filter_app, map_app. Qed.

Lemma getAll_without name l : getAll name (filter (fun q => fst q <> name) l) = [].
Proof.
  unfold getAll. induction l as [|p l IH]; [done|].
  rewrite filter_cons. case_decide as Hp; [|done].
  rewrite filter_cons. by case_decide.
Qed.

(** After [set], there is exactly one pair of that name, with the value. *)
Lemma getAll_setPair name value l : getAll name (setPair name value l) = [value].
Proof.
  induction l as [|p l IH]; simpl.
  - unfold getAll. rewrite filter_cons. by case_decide.
  - case_bool_decide as Hp.
    + unfold getAll. rewrite filter_cons. case_decide; [|done]. simpl.
      f_equal. apply getAll_without.
    + unfold getAll in *. rewrite filter_cons. by case_decide.
Qed.

Section WithHost.
Context `{Host}.

Lemma resolveApiKey_trimmed settings :
  trim (resolveApiKey settings) = resolveApiKey settings.
Proof. unfold resolveApiKey. destruct (truthy _); apply trim_idemp. Qed.

Lemma bind_Throw {A B} e (f : A -> Prog B) : bind (Throw e) f = Throw e.
Proof. reflexivity. Qed.

Lemma run_Throw {A} net (e : Thrown) : run net (@Throw A e) = (Failed e, []).
Proof. reflexivity. Qed.

(** C7.  Settings whose endpoint trims to the empty string: [complete] and
    [testConnector] both throw the empty-endpoint [ConfigError] at once;
    run against any network, they issue no request. *)
Theorem empty_endpoint_rejected (history : list Message) (settings : LlmSettings) :
  trim (endpoint settings) = [] ->
  requestChatCompletion history settings
    = Throw (Error (js "Connector endpoint is empty. Set a valid endpoint in Connector settings."))
  /\ testConnector settings = Throw (Error (js "Connector endpoint is empty."))
  /\ forall net : Network,
       snd (run net (requestChatCompletion history settings)) = []
       /\ snd (run net (testConnector settings)) = [].
Proof.
  intros He. unfold requestChatCompletion, testConnector. rewrite He. simpl.
  repeat split.
Qed.

(** C4.  The message for a failed response shows its kind right after the
    name of the provider: [RateLimited] for 429, [AuthError] for 401 and
    403, [ProviderError] for every other status.  Of the body text, only
    the first 220 units are carried: they are part of the message, what
    follows them changes nothing, and the message is that much longer than
    the one for an empty body. *)
Theorem http_error_classification (provider : Provider) (status : N)
    (details : jsstring) :
  let message := formatProviderHttpError provider status details in
  (status = 429 -> httpErrorKind provider message = RateLimited)
  /\ (status = 401 \/ status = 403 -> httpErrorKind provider message = AuthError)
  /\ (status <> 429 -> status <> 401 -> status <> 403 ->
      httpErrorKind provider message = ProviderError)
  /\ message = formatProviderHttpError provider status (slice0 220 details)
  /\ includes message (slice0 220 details) = true
  /\ length message
     = (length (formatProviderHttpError provider status [])
        + Nat.min 220 (length details))%nat.
Proof.
  cbv zeta. split; [|split; [|split; [|split; [|split]]]].
  - intros ->. by destruct provider.
  - intros [-> | ->]; by destruct provider.
  - intros H1 H2 H3. unfold formatProviderHttpError, httpErrorKind.
    apply N.eqb_neq in H1, H2, H3. rewrite H1, H2, H3. by destruct provider.
  - unfold formatProviderHttpError, slice0. by rewrite take_take, Nat.min_id.
  - unfold formatProviderHttpError.
    destruct (status =? 429); [|destruct ((status =? 401) || (status =? 403));
      [|destruct (isGemini provider)]];
      repeat first [apply includes_start | apply includes_refl | apply includes_skip].
  - unfold formatProviderHttpError, slice0.
    destruct (status =? 429); [|destruct ((status =? 401) || (status =? 403));
      [|destruct (isGemini provider)]];
      rewrite !length_app, !length_take; simpl length; lia.
Qed.


(** There is no need to unfold a literal to compare messages. *)
Opaque js.

Lemma validate_local endpointValue key :
  isLocalOllamaEndpoint endpointValue = true ->
  validateProviderSettings endpointValue key = None.
Proof. unfold validateProviderSettings. by intros ->. Qed.

Lemma validate_no_key endpointValue key :
  trim key = [] -> validateProviderSettings endpointValue key = None.
Proof.
  unfold validateProviderSettings. intros ->. cbn [truthy negb].
  by destruct (isLocalOllamaEndpoint endpointValue).
Qed.

Lemma validate_gemini_key endpointValue key :
  isLocalOllamaEndpoint endpointValue = false -> trim key <> [] ->
  isGeminiEndpoint endpointValue = true ->
  startsWith (trim key) (js "AIza") = false ->
  validateProviderSettings endpointValue key = Some geminiKeyProblem.
Proof.
  unfold validateProviderSettings, geminiKeyProblem.
  intros -> Hk%truthy_true -> ->. rewrite Hk. reflexivity.
Qed.

Lemma validate_openai_key endpointValue key :
  isLocalOllamaEndpoint endpointValue = false -> trim key <> [] ->
  isGeminiEndpoint endpointValue = false ->
  startsWith (trim key) (js "AIza") = true ->
  validateProviderSettings endpointValue key = Some openaiKeyProblem.
Proof.
  unfold validateProviderSettings, openaiKeyProblem.
  intros -> Hk%truthy_true -> ->. rewrite Hk. reflexivity.
Qed.

(** A problem found by the key check is thrown before anything is sent. *)
Lemma problem_thrown history settings problem :
  trim (endpoint settings) <> [] ->
  validateProviderSettings (trim (endpoint settings)) (resolveApiKey settings)
    = Some problem ->
  problem <> [] ->
  requestChatCompletion history settings = Throw (Error problem)
  /\ testConnector settings = Throw (Error problem).
Proof.
  intros He%truthy_true Hv Hp%truthy_true.
  unfold requestChatCompletion, testConnector. rewrite He, Hv.
  cbn [negb]. unfold throwIfProblem. rewrite Hp. split; reflexivity.
Qed.

Lemma geminiKeyProblem_nonempty : geminiKeyProblem <> [].
Proof. apply truthy_true. vm_compute. reflexivity. Qed.

Lemma openaiKeyProblem_nonempty : openaiKeyProblem <> [].
Proof. apply truthy_true. vm_compute. reflexivity. Qed.

(** C3, amended.  The key check is skipped when the endpoint in lower case
    contains one of the two loopback addresses, or when the resolved key is
    empty.  Otherwise a Gemini endpoint with a key that does not start with
    [AIza], and another endpoint with a key that does, make [complete] and
    [testConnector] throw the matching [ConfigError] before any request. *)
Theorem provider_key_check (history : list Message) (settings : LlmSettings) :
  let e := trim (endpoint settings) in
  let k := resolveApiKey settings in
  e <> [] ->
  (includes (toLowerCase e) (js "localhost:11434")
   || includes (toLowerCase e) (js "127.0.0.1:11434") = true \/ k = [] ->
   validateProviderSettings e k = None)
  /\ (includes (toLowerCase e) (js "localhost:11434")
      || includes (toLowerCase e) (js "127.0.0.1:11434") = false ->
      k <> [] ->
      (isGeminiEndpoint e = true -> startsWith k (js "AIza") = false ->
       requestChatCompletion history settings = Throw (Error geminiKeyProblem)
       /\ testConnector settings = Throw (Error geminiKeyProblem))
      /\ (isGeminiEndpoint e = false -> startsWith k (js "AIza") = true ->
          requestChatCompletion history settings = Throw (Error openaiKeyProblem)
          /\ testConnector settings = Throw (Error openaiKeyProblem))).
Proof.
  cbv zeta. intros He.
  pose proof (resolveApiKey_trimmed settings) as Hk.
  split.
  - intros [Hlocal | Hempty].
    + by apply validate_local.
    + apply validate_no_key. by rewrite Hk.
  - intros Hlocal Hkey. rewrite <- Hk in Hkey.
    split; intros Hg Hshape; rewrite <- Hk in Hshape.
    + apply problem_thrown; [done| |apply geminiKeyProblem_nonempty].
      by apply validate_gemini_key.
    + apply problem_thrown; [done| |apply openaiKeyProblem_nonempty].
      by apply validate_openai_key.
Qed.


(** *** The shape of the two programs *)

Lemma withGeminiApiKey_cases endpointValue key :
  (exists url, withGeminiApiKey endpointValue key = Return url)
  \/ withGeminiApiKey endpointValue key = Throw InvalidURL.
Proof.
  unfold withGeminiApiKey. destruct (negb (truthy (trim key))); [by eauto|].
  destruct (newURL endpointValue); by eauto.
Qed.

Lemma throwIfProblem_cases problem :
  throwIfProblem problem = Return tt
  \/ exists message, throwIfProblem problem = Throw (Error message).
Proof.
  destruct problem as [p|]; [|by left]. simpl.
  destruct (truthy p); by eauto.
Qed.

Lemma complete_gemini_shape history settings url init cont :
  isGeminiEndpoint (trim (endpoint settings)) = true ->
  requestChatCompletion history settings = Fetch url init cont ->
  withGeminiApiKey (withGeminiModel (trim (endpoint settings)) (model settings))
                   (resolveApiKey settings) = Return url
  /\ init = mkInit (js "POST") jsonHeaders
              (stringifyGemini
                 (mkGeminiPayload [mkTextPart (trim (systemPrompt settings))]
                                  (geminiContents history) None))
  /\ forall settled,
       cont settled = (response ← catchFetch Gemini settled; geminiReply response).
Proof.
  intros Hg. unfold requestChatCompletion.
  destruct (negb (truthy (trim (endpoint settings)))); [done|].
  destruct (throwIfProblem_cases
              (validateProviderSettings (trim (endpoint settings)) (resolveApiKey settings)))
    as [-> | [message ->]]; [|done].
  rewrite Hg. cbn [mbind Prog_bind bind].
  destruct (withGeminiApiKey_cases
              (withGeminiModel (trim (endpoint settings)) (model settings))
              (resolveApiKey settings)) as [[u ->] | ->]; [|done].
  cbn [bind safeFetch]. intros [= <- <- <-]. repeat split.
Qed.

Lemma probe_gemini_shape settings url init cont :
  isGeminiEndpoint (trim (endpoint settings)) = true ->
  testConnector settings = Fetch url init cont ->
  forall settled,
    cont settled = (response ← catchFetch Gemini settled; geminiProbeReply response).
Proof.
  intros Hg. unfold testConnector.
  destruct (negb (truthy (trim (endpoint settings)))); [done|].
  destruct (throwIfProblem_cases
              (validateProviderSettings (trim (endpoint settings)) (resolveApiKey settings)))
    as [-> | [message ->]]; [|done].
  rewrite Hg. cbn [mbind Prog_bind bind].
  destruct (withGeminiApiKey_cases
              (withGeminiModel (trim (endpoint settings)) (model settings))
              (resolveApiKey settings)) as [[u ->] | ->]; [|done].
  cbn [bind safeFetch]. intros [= <- <- <-]. done.
Qed.

Lemma join_nil (xs : list jsstring) : join [] xs = concat xs.
Proof.
  induction xs as [|x xs IH]; [done|]. simpl. destruct xs as [|y xs].
  - by rewrite app_nil_r.
  - by rewrite IH.
Qed.

(** C2.  The body of a Gemini request of [complete]: the system prompt,
    trimmed, is the one part of [system_instruction]; [contents] has one
    entry for each message of the history that is not a system message, in
    order, with role [model] for an assistant and [user] for a user, and
    the content as its one part; no entry has the role [system]. *)
Theorem gemini_contents_without_system (history : list Message)
    (settings : LlmSettings) url init cont :
  isGeminiEndpoint (trim (endpoint settings)) = true ->
  requestChatCompletion history settings = Fetch url init cont ->
  exists entries,
    body init = stringifyGemini
                  (mkGeminiPayload [mkTextPart (trim (systemPrompt settings))]
                                   entries None)
    /\ Forall2 (fun m entry =>
                  entry_role entry
                  = match role m with assistant => js "model" | _ => js "user" end
                  /\ entry_parts entry = [mkTextPart (content m)])
               (filter (fun m => role m <> system) history) entries
    /\ Forall (fun entry => entry_role entry <> js "system") entries.
Proof.
  intros Hg Hreq.
  destruct (complete_gemini_shape _ _ _ _ _ Hg Hreq) as (_ & -> & _).
  exists (geminiContents history). split; [reflexivity|]. unfold geminiContents.
  split.
  - clear Hreq. induction history as [|m history IH]; [constructor|].
    rewrite filter_cons. cbn [List.filter].
    destruct (role m) eqn:Er; case_decide; try done; cbn [map];
      constructor; try done; cbn [entry_role entry_parts]; by rewrite Er.
  - apply Forall_forall. intros entry [m [-> _]]%list_elem_of_fmap.
    cbn [entry_role]. destruct (role m); intros E; vm_compute in E; discriminate E.
Qed.


Lemma geminiReply_ok response b :
  ok response = true -> json response = Some b ->
  geminiReply response
  = contentOrThrow (geminiContent (asGeminiResponse b)) geminiEmptyResponse.
Proof.
  intros Hok Hjson. unfold geminiReply, throwUnlessOk, readJson.
  rewrite Hok, Hjson. reflexivity.
Qed.

Lemma contentOrThrow_nonempty content message :
  contentOrThrow content message <> Return [].
Proof.
  unfold contentOrThrow. destruct content as [[|c s]|]; simpl; congruence.
Qed.

(** C6.  A Gemini response with a status from 200 to 299 and a JSON body:
    the texts of the parts of the content of the first candidate, an
    absent text counting as empty, are concatenated with nothing between
    them and the result is trimmed; [complete] returns it when it is not
    empty and throws [EmptyResponse] when it is, or when a candidate, its
    content or its parts are absent.  It never returns the empty string.
    With two parts the answer is the two texts, joined and trimmed. *)
Theorem gemini_reply_text (history : list Message) (settings : LlmSettings)
    url init cont (response : Response) (b : JsonBody) :
  isGeminiEndpoint (trim (endpoint settings)) = true ->
  requestChatCompletion history settings = Fetch url init cont ->
  ok response = true ->
  json response = Some b ->
  (forall c0 rest ct parts,
     candidates (asGeminiResponse b) = Some (c0 :: rest) ->
     candidate_content c0 = Some ct ->
     content_parts ct = Some parts ->
     let answer := trim (concat (map (fun p => default [] (part_text p)) parts)) in
     cont (Resolved response)
     = if truthy answer then Return answer else Throw (Error geminiEmptyResponse))
  /\ (forall c0 rest ct p1 p2,
        candidates (asGeminiResponse b) = Some (c0 :: rest) ->
        candidate_content c0 = Some ct ->
        content_parts ct = Some [p1; p2] ->
        let answer := trim (default [] (part_text p1) ++ default [] (part_text p2)) in
        cont (Resolved response)
        = if truthy answer then Return answer else Throw (Error geminiEmptyResponse))
  /\ (geminiContent (asGeminiResponse b) = None ->
      cont (Resolved response) = Throw (Error geminiEmptyResponse))
  /\ cont (Resolved response) <> Return [].
Proof.
  intros Hg Hreq Hok Hjson.
  destruct (complete_gemini_shape _ _ _ _ _ Hg Hreq) as (_ & _ & Hcont).
  rewrite Hcont. cbn [catchFetch mbind Prog_bind bind].
  rewrite (geminiReply_ok _ _ Hok Hjson).
  assert (forall c0 rest ct parts,
     candidates (asGeminiResponse b) = Some (c0 :: rest) ->
     candidate_content c0 = Some ct ->
     content_parts ct = Some parts ->
     contentOrThrow (geminiContent (asGeminiResponse b)) geminiEmptyResponse
     = if truthy (trim (concat (map (fun p => default [] (part_text p)) parts)))
       then Return (trim (concat (map (fun p => default [] (part_text p)) parts)))
       else Throw (Error geminiEmptyResponse)) as Hparts.
  { intros c0 rest ct parts H1 H2 H3. unfold geminiContent.
    rewrite H1. cbn [mbind option_bind head]. rewrite H2. cbn [mbind option_bind].
    rewrite H3. cbn [mbind option_bind]. rewrite join_nil. reflexivity. }
  split; [exact Hparts|]. split; [|split].
  - intros c0 rest ct p1 p2 H1 H2 H3. cbv zeta.
    rewrite (Hparts _ _ _ _ H1 H2 H3). cbn [map concat]. by rewrite app_nil_r.
  - by intros ->.
  - apply contentOrThrow_nonempty.
Qed.

Lemma validate_Some endpointValue key problem :
  validateProviderSettings endpointValue key = Some problem ->
  problem = geminiKeyProblem \/ problem = openaiKeyProblem.
Proof.
  unfold validateProviderSettings.
  destruct (isLocalOllamaEndpoint endpointValue); [done|].
  destruct (negb (truthy (trim key))); [done|].
  destruct (_ && _); [intros [= <-]; by left|].
  destruct (_ && _); [intros [= <-]; by right|done].
Qed.

(** The messages a Gemini probe can throw all differ from the message of
    [EmptyResponse] within their first ten units. *)
Lemma catchFetch_gemini_message settled message :
  catchFetch Gemini settled = Throw (Error message) ->
  startsWith message (js "Gemini res") = false.
Proof.
  destruct settled as [response | m |]; cbn [catchFetch isGemini negb andb];
    intros E.
  - congruence.
  - assert (message = providerName Gemini
              ++ js " request could not reach the endpoint (" ++ m
              ++ js "). Check internet access, endpoint URL, CORS/referrer restrictions, and firewall/proxy settings.")
      as -> by congruence.
    vm_compute. reflexivity.
  - assert (message = providerName Gemini
              ++ js " request could not reach the endpoint ("
              ++ js "Unknown network error"
              ++ js "). Check internet access, endpoint URL, CORS/referrer restrictions, and firewall/proxy settings.")
      as -> by congruence.
    vm_compute. reflexivity.
Qed.

Lemma formatProviderHttpError_gemini_message status details :
  startsWith (formatProviderHttpError Gemini status details) (js "Gemini res") = false.
Proof.
  unfold formatProviderHttpError.
  destruct (status =? 429); [|destruct ((status =? 401) || (status =? 403))];
    vm_compute; reflexivity.
Qed.

(** C10.  On the Gemini path of [testConnector], a response with a status
    from 200 to 299 gives the fixed string, whatever its body text and
    whether or not the body is JSON.  Whatever the network answers,
    [testConnector] on a Gemini endpoint never fails with [EmptyResponse]. *)
Theorem gemini_probe_ignores_body (settings : LlmSettings) :
  isGeminiEndpoint (trim (endpoint settings)) = true ->
  (forall url init cont response,
     testConnector settings = Fetch url init cont ->
     ok response = true ->
     cont (Resolved response) = Return (js "Gemini connector reachable"))
  /\ (forall net : Network,
        fst (run net (testConnector settings)) <> Failed (Error geminiEmptyResponse)).
Proof.
  intros Hg. split.
  - intros url init cont response Hreq Hok.
    rewrite (probe_gemini_shape _ _ _ _ Hg Hreq).
    cbn [catchFetch mbind Prog_bind bind]. unfold geminiProbeReply, throwUnlessOk.
    rewrite Hok. reflexivity.
  - intros net.
    assert (startsWith geminiEmptyResponse (js "Gemini res") = true) as Hres
      by (vm_compute; reflexivity).
    destruct (testConnector settings) as [a | e | url init cont] eqn:Hreq.
    + cbn [run fst]. congruence.
    + cbn [run fst]. intros E.
      assert (e = Error geminiEmptyResponse) as -> by congruence. clear E.
      revert Hreq. unfold testConnector.
      destruct (negb (truthy (trim (endpoint settings)))).
      { intros E. vm_compute in E. discriminate E. }
      destruct (validateProviderSettings (trim (endpoint settings))
                  (resolveApiKey settings)) as [problem|] eqn:Hv.
      * cbn [throwIfProblem]. destruct (truthy problem).
        -- cbn [mbind Prog_bind bind]. intros E.
           assert (problem = geminiEmptyResponse) as -> by congruence.
           destruct (validate_Some _ _ _ Hv) as [E' | E'];
             vm_compute in E'; discriminate E'.
        -- rewrite Hg. cbn [mbind Prog_bind bind].
           destruct (withGeminiApiKey_cases
              (withGeminiModel (trim (endpoint settings)) (model settings))
              (resolveApiKey settings)) as [[u ->] | ->];
             cbn [mbind Prog_bind bind safeFetch]; congruence.
      * rewrite Hg. cbn [throwIfProblem mbind Prog_bind bind].
        destruct (withGeminiApiKey_cases
              (withGeminiModel (trim (endpoint settings)) (model settings))
              (resolveApiKey settings)) as [[u ->] | ->];
          cbn [mbind Prog_bind bind safeFetch]; congruence.
    + cbn [run]. rewrite (probe_gemini_shape _ _ _ _ Hg Hreq).
      destruct (catchFetch Gemini (net url init)) as [response | e | ? ? ?] eqn:Hc.
      * cbn [mbind Prog_bind bind]. unfold geminiProbeReply, throwUnlessOk.
        destruct (negb (ok response)); cbn [mbind Prog_bind bind run fst];
          [|congruence].
        intros E.
        assert (formatProviderHttpError Gemini (status response) (text response)
                = geminiEmptyResponse) as E' by congruence.
        pose proof (formatProviderHttpError_gemini_message (status response) (text response)) as Hm.
        rewrite E', Hres in Hm. discriminate Hm.
      * cbn [mbind Prog_bind bind run fst]. intros E.
        assert (e = Error geminiEmptyResponse) as -> by congruence.
        apply catchFetch_gemini_message in Hc. rewrite Hres in Hc. discriminate Hc.
      * exfalso. destruct (net url init); cbn [catchFetch isGemini negb andb] in Hc;
          congruence.
Qed.


Lemma header_names_differ : js "Authorization" <> js "Content-Type".
Proof. intros E. vm_compute in E. discriminate E. Qed.

Lemma buildHeaders_lookup settings :
  buildHeaders settings !! js "Content-Type" = Some (js "application/json")
  /\ buildHeaders settings !! js "Authorization"
     = if truthy (resolveApiKey settings)
       then Some (js "Bearer " ++ resolveApiKey settings) else None.
Proof.
  unfold buildHeaders. destruct (truthy (resolveApiKey settings)).
  - split.
    + rewrite lookup_insert_ne by apply header_names_differ.
      apply lookup_singleton_eq.
    + apply lookup_insert_eq.
  - split.
    + apply lookup_singleton_eq.
    + apply lookup_singleton_ne. intros E. by apply header_names_differ.
Qed.

(** C5.  A request of [complete] to an endpoint that is not a Gemini
    endpoint goes to the trimmed endpoint; its [messages] start with the
    system message, whose content is the trimmed system prompt, followed by
    the history in order, each message as its role and content; its headers
    hold [Content-Type], and [Authorization: Bearer <key>] exactly when the
    resolved key is not empty. *)
Theorem openai_request (history : list Message) (settings : LlmSettings) :
  let e := trim (endpoint settings) in
  let k := resolveApiKey settings in
  e <> [] ->
  validateProviderSettings e k = None ->
  isGeminiEndpoint e = false ->
  exists hdrs cont,
    requestChatCompletion history settings
    = Fetch e
        (mkInit (js "POST") hdrs
           (stringifyChat
              (mkChatPayload (trim (model settings))
                 (mkChatMessage (js "system") (trim (systemPrompt settings))
                  :: map (fun m => mkChatMessage (roleString (role m)) (content m))
                         history)
                 (3 # 10)%Q None)))
        cont
    /\ hdrs !! js "Content-Type" = Some (js "application/json")
    /\ (k <> [] -> hdrs !! js "Authorization" = Some (js "Bearer " ++ k))
    /\ (k = [] -> hdrs !! js "Authorization" = None)
    /\ (is_Some (hdrs !! js "Authorization") <-> k <> []).
Proof.
  cbv zeta. intros He%truthy_true Hv Hg.
  exists (buildHeaders settings). eexists. split.
  - unfold requestChatCompletion. rewrite He, Hv, Hg.
    cbn [negb throwIfProblem mbind Prog_bind bind safeFetch]. reflexivity.
  - destruct (buildHeaders_lookup settings) as [Hct Hauth].
    split; [exact Hct|].
    destruct (truthy (resolveApiKey settings)) eqn:Hk.
    + apply truthy_true in Hk. split; [done|]. split; [done|].
      split; [done|]. intros _. rewrite Hauth. by eexists.
    + apply truthy_false in Hk. split; [done|]. split; [done|]. split; [|done].
      rewrite Hauth. intros [x Hx]. discriminate Hx.
Qed.


Lemma complete_gemini_request history settings url :
  trim (endpoint settings) <> [] ->
  validateProviderSettings (trim (endpoint settings)) (resolveApiKey settings) = None ->
  isGeminiEndpoint (trim (endpoint settings)) = true ->
  withGeminiApiKey (withGeminiModel (trim (endpoint settings)) (model settings))
                   (resolveApiKey settings) = Return url ->
  exists init cont, requestChatCompletion history settings = Fetch url init cont.
Proof.
  intros He%truthy_true Hv Hg Hurl. unfold requestChatCompletion.
  rewrite He, Hv, Hg, Hurl.
  cbn [negb throwIfProblem mbind Prog_bind bind safeFetch]. by eauto.
Qed.

(** C1, amended.  For settings with a Gemini endpoint that pass the key
    check.  The model: with an empty trimmed model the endpoint is left as
    it is; otherwise (a model without [$]) the first text that the model
    pattern matches is replaced by [/models/<trimmed model>:generateContent],
    and without such a text the endpoint is left as it is.  The key: with
    an empty resolved key the request goes to the rewritten endpoint as it
    is; otherwise, when the rewritten endpoint is a URL without a [key]
    parameter, the request goes to that URL with [key] set, and [key] is
    there exactly once with the resolved key; when it has a [key]
    parameter already, the request goes to the URL unchanged. *)
Theorem gemini_posted_url (history : list Message) (settings : LlmSettings) :
  let e := trim (endpoint settings) in
  let k := resolveApiKey settings in
  let m := trim (model settings) in
  let rewritten := withGeminiModel e (model settings) in
  isGeminiEndpoint e = true ->
  e <> [] ->
  validateProviderSettings e k = None ->
  (m = [] -> rewritten = e)
  /\ (m <> [] -> Forall (fun c => c <> 36) m ->
      (rewritten = e
       /\ forall j, (j <= length e)%nat -> modelMatchLength (drop j e) = None)
      \/ (exists pre old post,
            e = pre ++ old ++ post
            /\ ModelSegment old post
            /\ (forall j, (j < length pre)%nat -> modelMatchLength (drop j e) = None)
            /\ rewritten = pre ++ (js "/models/" ++ m ++ js ":generateContent") ++ post))
  /\ (k = [] ->
      exists init cont,
        requestChatCompletion history settings = Fetch rewritten init cont)
  /\ (k <> [] -> forall u, newURL rewritten = Some u ->
      (has (js "key") (searchParams u) = false ->
       (exists init cont,
          requestChatCompletion history settings
          = Fetch (URL_toString (searchParams_set (js "key") k u)) init cont)
       /\ getAll (js "key") (searchParams (searchParams_set (js "key") k u)) = [k])
      /\ (has (js "key") (searchParams u) = true ->
          exists init cont,
            requestChatCompletion history settings = Fetch (URL_toString u) init cont)).
Proof.
  cbv zeta. intros Hg He Hv.
  pose proof (resolveApiKey_trimmed settings) as Hk.
  split; [|split; [|split]].
  - intros Hm. unfold withGeminiModel. by rewrite Hm.
  - intros Hm Hplain. by apply RegExpFacts.withGeminiModel_shape.
  - intros Hempty. apply complete_gemini_request; try done.
    unfold withGeminiApiKey. by rewrite Hk, Hempty.
  - intros Hkey u Hu. apply truthy_true in Hkey. split; intros Hhas.
    + split.
      * apply complete_gemini_request; try done.
        unfold withGeminiApiKey. by rewrite Hk, Hkey, Hu, Hhas.
      * rewrite searchParams_set_list. apply getAll_setPair.
    + apply complete_gemini_request; try done.
      unfold withGeminiApiKey. by rewrite Hk, Hkey, Hu, Hhas.
Qed.

End WithHost.

Ltac by_evaluation := vm_compute; first [reflexivity | discriminate].


Lemma key_check_as_stated_fails :
  ~ key_check_as_stated (H := refHost None) [] upperCaseLocalSettings.
Proof.
  intros Hc. destruct Hc as [_ Hopenai]; [by_evaluation..|].
  destruct Hopenai as [message Hm]; [by_evaluation..|].
  assert (posted (requestChatCompletion (H := refHost None) [] upperCaseLocalSettings)
          <> None) as Hr by by_evaluation.
  rewrite Hm in Hr. by apply Hr.
Qed.
(** C1, as stated, fails in both halves: the endpoint carries a key of its
    own and the model is empty; the request goes to the endpoint as it is,
    which holds neither the model of the settings nor the resolved key. *)
Lemma posted_url_as_stated_fails :
  ~ posted_model_as_stated (H := refHost None) [] presetKeySettings
  /\ ~ posted_key_as_stated (H := refHost None) [] presetKeySettings
  /\ ~ posted_url_as_stated (H := refHost None) [] presetKeySettings.
Proof.
  assert (postedURL (requestChatCompletion (H := refHost None) [] presetKeySettings)
          = Some (endpoint presetKeySettings)) as Hurl by by_evaluation.
  assert (isGeminiEndpoint (trim (endpoint presetKeySettings)) = true) as Hg
    by by_evaluation.
  destruct (requestChatCompletion (H := refHost None) [] presetKeySettings)
    as [a | e | url init cont] eqn:Hreq; [discriminate Hurl..|].
  change (Some url = Some (endpoint presetKeySettings)) in Hurl.
  apply (inj Some) in Hurl. subst url.
  assert (~ posted_model_as_stated (H := refHost None) [] presetKeySettings) as Hmodel.
  { intros Hc. pose proof (Hc Hg _ _ _ Hreq) as Hm.
    vm_compute in Hm. discriminate Hm. }
  assert (~ posted_key_as_stated (H := refHost None) [] presetKeySettings) as Hkey.
  { intros Hc. destruct (Hc Hg _ _ _ Hreq) as (u & Hu & Hget).
    vm_compute in Hu. apply (inj Some) in Hu. subst u.
    vm_compute in Hget. discriminate Hget. }
  split; [exact Hmodel|]. split; [exact Hkey|]. by intros [Hc _].
Qed.

(** The sample Gemini settings pass the checks: both programs start with a
    request. *)
Lemma sample_complete_posts :
  exists url init cont,
    requestChatCompletion (H := refHost None) sampleHistory geminiSettings
    = Fetch url init cont.
Proof.
  assert (posted (requestChatCompletion (H := refHost None) sampleHistory geminiSettings)
          <> None) as Hp by by_evaluation.
  destruct (requestChatCompletion (H := refHost None) sampleHistory geminiSettings)
    as [a | e | url init cont]; [by destruct Hp..|]. by eauto.
Qed.

Lemma sample_probe_posts :
  exists url init cont,
    testConnector (H := refHost None) geminiSettings = Fetch url init cont.
Proof.
  assert (posted (testConnector (H := refHost None) geminiSettings) <> None)
    as Hp by by_evaluation.
  destruct (testConnector (H := refHost None) geminiSettings)
    as [a | e | url init cont]; [by destruct Hp..|]. by eauto.
Qed.

Lemma sample_is_gemini : isGeminiEndpoint (trim (endpoint geminiSettings)) = true.
Proof. by_evaluation. Qed.

(** C1 at the sample Gemini settings. *)
Lemma gemini_posted_url_witness :
  (exists init cont,
     requestChatCompletion (H := refHost None) sampleHistory geminiSettings
     = Fetch (URL_toString (Host := refHost None)
                (searchParams_set (Host := refHost None) (js "key")
                   (resolveApiKey (H := refHost None) geminiSettings) sampleURL))
             init cont)
  /\ getAll (js "key")
       (searchParams (Host := refHost None)
          (searchParams_set (Host := refHost None) (js "key")
             (resolveApiKey (H := refHost None) geminiSettings) sampleURL))
     = [resolveApiKey (H := refHost None) geminiSettings].
Proof.
  assert (trim (endpoint geminiSettings) <> []) as He by by_evaluation.
  assert (validateProviderSettings (H := refHost None) (trim (endpoint geminiSettings))
            (resolveApiKey (H := refHost None) geminiSettings) = None) as Hv
    by by_evaluation.
  assert (resolveApiKey (H := refHost None) geminiSettings <> []) as Hk by by_evaluation.
  assert (newURL (Host := refHost None)
            (withGeminiModel (trim (endpoint geminiSettings)) (model geminiSettings))
          = Some sampleURL) as Hu by by_evaluation.
  assert (has (js "key") (searchParams (Host := refHost None) sampleURL) = false)
    as Hhas by by_evaluation.
  exact (proj1 (proj2 (proj2 (proj2
           (gemini_posted_url (H := refHost None) sampleHistory geminiSettings
              sample_is_gemini He Hv))) Hk sampleURL Hu) Hhas).
Defined.

(** C2 at the sample history, which holds a system message. *)
Lemma gemini_contents_without_system_witness :
  exists url init cont entries,
    requestChatCompletion (H := refHost None) sampleHistory geminiSettings
    = Fetch url init cont
    /\ body init = stringifyGemini
                     (mkGeminiPayload [mkTextPart (trim (systemPrompt geminiSettings))]
                                      entries None)
    /\ Forall (fun entry => entry_role entry <> js "system") entries.
Proof.
  destruct sample_complete_posts as (url & init & cont & Hreq).
  destruct (gemini_contents_without_system (H := refHost None) sampleHistory
              geminiSettings url init cont sample_is_gemini Hreq)
    as (entries & Hbody & _ & Hroles).
  exists url, init, cont, entries. split; [exact Hreq|]. split; [exact Hbody|exact Hroles].
Defined.

(** C5 at the sample OpenAI settings, whose key is not empty. *)
Lemma openai_request_witness :
  exists hdrs cont,
    requestChatCompletion (H := refHost None) sampleHistory openaiSettings
    = Fetch (trim (endpoint openaiSettings))
        (mkInit (js "POST") hdrs
           (stringifyChat
              (mkChatPayload (trim (model openaiSettings))
                 (mkChatMessage (js "system") (trim (systemPrompt openaiSettings))
                  :: map (fun m => mkChatMessage (roleString (role m)) (content m))
                         sampleHistory)
                 (3 # 10)%Q None)))
        cont
    /\ hdrs !! js "Authorization"
       = Some (js "Bearer " ++ resolveApiKey (H := refHost None) openaiSettings).
Proof.
  assert (trim (endpoint openaiSettings) <> []) as He by by_evaluation.
  assert (validateProviderSettings (H := refHost None) (trim (endpoint openaiSettings))
            (resolveApiKey (H := refHost None) openaiSettings) = None) as Hv
    by by_evaluation.
  assert (isGeminiEndpoint (trim (endpoint openaiSettings)) = false) as Hg
    by by_evaluation.
  assert (resolveApiKey (H := refHost None) openaiSettings <> []) as Hk by by_evaluation.
  destruct (openai_request (H := refHost None) sampleHistory openaiSettings He Hv Hg)
    as (hdrs & cont & Hreq & _ & Hauth & _).
  exists hdrs, cont. split; [exact Hreq|exact (Hauth Hk)].
Defined.

(** C6 at a response with two parts. *)
Lemma gemini_reply_text_witness :
  exists url init cont,
    requestChatCompletion (H := refHost None) sampleHistory geminiSettings
    = Fetch url init cont
    /\ cont (Resolved okResponse) = Return (js "Hello, world.").
Proof.
  destruct sample_complete_posts as (url & init & cont & Hreq).
  exists url, init, cont. split; [exact Hreq|].
  pose proof (proj1 (proj2 (gemini_reply_text (H := refHost None) sampleHistory
                  geminiSettings url init cont okResponse twoParts
                  sample_is_gemini Hreq eq_refl eq_refl))
                _ _ _ _ _ eq_refl eq_refl eq_refl) as Hreply.
  cbv zeta in Hreply. rewrite Hreply.
  match goal with |- context [truthy ?a] => set (answer := a) end.
  assert (answer = js "Hello, world.") as -> by (subst answer; by_evaluation).
  assert (truthy (js "Hello, world.") = true) as -> by by_evaluation.
  reflexivity.
Defined.

(** C10 at a 200 response with an empty body that is not JSON. *)
Lemma gemini_probe_ignores_body_witness :
  exists url init cont,
    testConnector (H := refHost None) geminiSettings = Fetch url init cont
    /\ cont (Resolved emptyOkResponse) = Return (js "Gemini connector reachable").
Proof.
  destruct sample_probe_posts as (url & init & cont & Hreq).
  exists url, init, cont. split; [exact Hreq|].
  exact (proj1 (gemini_probe_ignores_body (H := refHost None) geminiSettings
                  sample_is_gemini) url init cont emptyOkResponse Hreq eq_refl).
Defined.

(** C7 at settings whose endpoint is blank. *)
Lemma empty_endpoint_rejected_witness :
  requestChatCompletion (H := refHost None) sampleHistory blankSettings
  = Throw (Error (js "Connector endpoint is empty. Set a valid endpoint in Connector settings.")).
Proof.
  assert (trim (endpoint blankSettings) = []) as Hblank by by_evaluation.
  exact (proj1 (empty_endpoint_rejected (H := refHost None) sampleHistory blankSettings Hblank)).
Defined.

(** C4 at a 429 of the Gemini API. *)
Lemma http_error_classification_witness :
  httpErrorKind Gemini (formatProviderHttpError Gemini 429 (js "quota exceeded"))
  = RateLimited.
Proof.
  exact (proj1 (http_error_classification Gemini 429 (js "quota exceeded")) eq_refl).
Defined.

(** C3 at a Gemini endpoint with a key of another provider. *)
Lemma provider_key_check_witness :
  requestChatCompletion (H := refHost None) sampleHistory wrongKeySettings
  = Throw (Error geminiKeyProblem).
Proof.
  pose (settings := wrongKeySettings).
  assert (trim (endpoint settings) <> []) as He by by_evaluation.
  assert (includes (toLowerCase (Host := refHost None) (trim (endpoint settings))) (js "localhost:11434")
          || includes (toLowerCase (Host := refHost None) (trim (endpoint settings))) (js "127.0.0.1:11434")
          = false) as Hlocal by by_evaluation.
  assert (resolveApiKey (H := refHost None) settings <> []) as Hk by by_evaluation.
  assert (isGeminiEndpoint (trim (endpoint settings)) = true) as Hg by by_evaluation.
  assert (startsWith (resolveApiKey (H := refHost None) settings) (js "AIza") = false)
    as Hshape by by_evaluation.
  exact (proj1 (proj1 (proj2 (provider_key_check (H := refHost None) sampleHistory settings He)
                         Hlocal Hk) Hg Hshape)).
Defined.

End LlmFacts.

(** ** The automation engine *)

Module AutomationFacts.
Import JS RegExp Types Platform Automation Spec JSFacts.

Section WithHost.
Context `{Host}.

Lemma label_app task rest :
  label task ++ rest = js "[" ++ name task ++ js "]" ++ rest.
Proof. unfold label. by rewrite <- !app_assoc. Qed.

(** Every block starts with the name of its task between brackets. *)
Lemma taskOutput_labelled cleanedPrompt task :
  exists rest, taskOutput cleanedPrompt task = js "[" ++ name task ++ js "]" ++ rest.
Proof.
  unfold taskOutput.
  repeat match goal with
         | |- context [if strEq ?a ?b then _ else _] => destruct (strEq a b)
         end.
  - unfold summarize. rewrite label_app. by eexists.
  - unfold roadmap. rewrite label_app. by eexists.
  - unfold safetyCheck. cbv zeta. rewrite label_app. by eexists.
  - unfold answerWebQuestions. cbv zeta.
    destruct (exec urlRegExp cleanedPrompt); [rewrite label_app; by eexists|].
    destruct (0 <? length (questionMatches cleanedPrompt))%nat;
      rewrite label_app; by eexists.
  - unfold extractLinks. cbv zeta.
    destruct (0 <? _)%nat; rewrite label_app; by eexists.
  - unfold faqGenerator. rewrite label_app. by eexists.
  - unfold codeExtractor. cbv zeta.
    destruct (0 <? _)%nat; rewrite label_app; by eexists.
  - unfold keyPhrases. cbv zeta. rewrite label_app. by eexists.
  - unfold fallback. rewrite label_app. by eexists.
Qed.

(** A task whose id has no [case] of its own echoes its command. *)
Lemma taskOutput_fallback cleanedPrompt task :
  builtin (id task) = false ->
  taskOutput cleanedPrompt task
  = js "[" ++ name task ++ js "]" ++ js " " ++ command task.
Proof.
  unfold builtin. cbn [existsb]. intros Hb.
  repeat (apply orb_false_elim in Hb as [? Hb]).
  unfold taskOutput.
  repeat match goal with
         | E : strEq ?a ?b = false |- context [if strEq ?a ?b then _ else _] =>
             rewrite E
         end.
  unfold fallback. apply label_app.
Qed.

(** C8.  With no enabled task the result is the one fixed line.  Otherwise
    there is one block for each enabled task, in the order of the tasks;
    each starts with the name of its task between brackets, and a task
    whose id is not built in gives its command after the name.  After the
    blocks comes the echo of the trimmed prompt, cut at 200 units and then
    followed by three dots, exactly when the trimmed prompt is not empty. *)
Theorem runAutomation_blocks (prompt : jsstring) (tasks : list AutomationTask) :
  let active := List.filter enabled tasks in
  let p := trim prompt in
  let echo := nl ++ js "Input: " ++ dquote ++ take 200 p
              ++ (if (200 <? length p)%nat then js "..." else []) ++ dquote in
  (active = [] -> runAutomation prompt tasks = [js "No automation tasks enabled."])
  /\ (active <> [] ->
      exists blocks,
        runAutomation prompt tasks = blocks ++ (if truthy p then [echo] else [])
        /\ Forall2 (fun task block =>
                     (exists rest, block = js "[" ++ name task ++ js "]" ++ rest)
                     /\ (builtin (id task) = false ->
                         block = js "[" ++ name task ++ js "]" ++ js " " ++ command task))
                  active blocks).
Proof.
  cbv zeta. unfold runAutomation. split.
  - by intros ->.
  - intros Hactive.
    destruct (List.filter enabled tasks) as [|task active] eqn:E; [done|].
    cbn [length Nat.eqb].
    exists (map (taskOutput (trim prompt)) (task :: active)). split.
    + unfold inputEcho, slice0. destruct (truthy (trim prompt)); [done|].
      by rewrite app_nil_r.
    + clear E Hactive. generalize (task :: active). intros l.
      induction l as [|t l IH]; [constructor|]. cbn [map]. constructor; [|done].
      split; [apply taskOutput_labelled|apply taskOutput_fallback].
Qed.

(** C9.  On the prompt of the specification, which holds no URL, the
    answer-web-questions task finds the one question and the answer 4, and
    reports both; the echo of the prompt follows. *)
Theorem answer_example (taskName command : jsstring) :
  let prompt := js "What is 2+2? Answer: 4" in
  exec urlRegExp (trim prompt) = None
  /\ questionMatches (trim prompt) = [js "What is 2+2?"]
  /\ extractedAnswer (trim prompt) = Some (js "4")
  /\ runAutomation prompt [mkTask (js "answer-web-questions") taskName command true]
     = [(js "[" ++ taskName ++ js "]") ++ nl ++ js "Detected 1 question(s)." ++ nl
        ++ js "❔ Questions:" ++ nl ++ js "- What is 2+2?" ++ nl
        ++ js "✅ Possible answer found in provided content: 4";
        nl ++ js "Input: " ++ dquote ++ js "What is 2+2? Answer: 4" ++ dquote].
Proof.
  cbv zeta. split; [|split; [|split]]; vm_compute; reflexivity.
Qed.

End WithHost.

(** The matcher on inputs whose results are known from an engine: greedy
    white space before a group gives back one unit when the group would
    be empty; a split keeps the empty strings at both ends. *)
Example answer_backtracks :
  extractedAnswer (js "x ANSWER:   ") = Some []
  /\ (let s := js "x ANSWER:   " in
      (fun m => group s m 1) <$> exec answerRegExp s) = Some (Some (js " ")).
Proof. split; vm_compute; reflexivity. Qed.

Example split_keeps_ends :
  split spacesRegExp (js " ab  cd e ") = [[]; js "ab"; js "cd"; js "e"; []].
Proof. vm_compute. reflexivity. Qed.

(** The example of the specification for extract-links. *)
Example links_example :
  runAutomation (H := refHost None) (js "Visit https://example.com and https://test.org")
    [mkTask (js "extract-links") (js "Extract Links") (js "Pull all links.") true]
  = [js "[Extract Links]" ++ nl ++ js "Found 2 link(s):" ++ nl
     ++ js "- https://example.com" ++ nl ++ js "- https://test.org";
     nl ++ js "Input: " ++ dquote
     ++ js "Visit https://example.com and https://test.org" ++ dquote].
Proof. vm_compute. reflexivity. Qed.

(** C8 at the default tasks followed by a task of the user. *)
Lemma runAutomation_blocks_witness :
  exists blocks,
    runAutomation (H := refHost None) (js "Fix the build, please.")
      (defaultTasks ++ [mkTask (js "mine") (js "Mine") (js "Do it.") true])
    = blocks ++ [nl ++ js "Input: " ++ dquote ++ js "Fix the build, please." ++ dquote]
    /\ length blocks = 9%nat.
Proof.
  pose (tasks := defaultTasks ++ [mkTask (js "mine") (js "Mine") (js "Do it.") true]).
  assert (List.filter enabled tasks <> []) as Hactive by (vm_compute; discriminate).
  destruct (proj2 (runAutomation_blocks (H := refHost None) (js "Fix the build, please.") tasks)
              Hactive) as (blocks & Hrun & Hblocks).
  exists blocks. split.
  - fold tasks. rewrite Hrun.
    assert (truthy (trim (js "Fix the build, please.")) = true) as -> by (vm_compute; reflexivity).
    apply (f_equal (app blocks)). vm_compute. reflexivity.
  - apply Forall2_length in Hblocks. rewrite <- Hblocks. vm_compute. reflexivity.
Defined.

End AutomationFacts.

(** ** Further properties of the connector *)

Module ConnectorFacts.
Import JS RegExp Types Platform Llm Spec ConnectorSpec JSFacts LlmFacts.

Section WithHost.
Context `{Host}.

(** The continuation of the request of [requestChatCompletion], for either
    provider. *)
Lemma complete_shape history settings url init cont :
  requestChatCompletion history settings = Fetch url init cont ->
  forall settled,
    cont settled
    = (response ← catchFetch (providerOf settings) settled;
       reply (providerOf settings) response).
Proof.
  unfold requestChatCompletion, providerOf.
  destruct (negb (truthy (trim (endpoint settings)))); [done|].
  destruct (throwIfProblem_cases
              (validateProviderSettings (trim (endpoint settings)) (resolveApiKey settings)))
    as [-> | [message ->]]; [|done].
  cbn [mbind Prog_bind bind].
  destruct (isGeminiEndpoint (trim (endpoint settings))).
  - destruct (withGeminiApiKey_cases
                (withGeminiModel (trim (endpoint settings)) (model settings))
                (resolveApiKey settings)) as [[u ->] | ->]; [|done].
    cbn [bind safeFetch]. intros [= <- <- <-]. done.
  - cbn [bind safeFetch]. intros [= <- <- <-]. done.
Qed.

Lemma probe_shape settings url init cont :
  testConnector settings = Fetch url init cont ->
  forall settled,
    cont settled
    = (response ← catchFetch (providerOf settings) settled;
       probeReply (providerOf settings) response).
Proof.
  unfold testConnector, providerOf.
  destruct (negb (truthy (trim (endpoint settings)))); [done|].
  destruct (throwIfProblem_cases
              (validateProviderSettings (trim (endpoint settings)) (resolveApiKey settings)))
    as [-> | [message ->]]; [|done].
  cbn [mbind Prog_bind bind].
  destruct (isGeminiEndpoint (trim (endpoint settings))).
  - destruct (withGeminiApiKey_cases
                (withGeminiModel (trim (endpoint settings)) (model settings))
                (resolveApiKey settings)) as [[u ->] | ->]; [|done].
    cbn [bind safeFetch]. intros [= <- <- <-]. done.
  - cbn [bind safeFetch]. intros [= <- <- <-]. done.
Qed.

Lemma quiet_bind {A B} (p : Prog A) (f : A -> Prog B) :
  quiet p -> (forall a, quiet (f a)) -> quiet (bind p f).
Proof. destruct p; simpl; [auto|done|done]. Qed.

Lemma quiet_run {A} net (p : Prog A) : quiet p -> snd (run net p) = [].
Proof. by destruct p. Qed.

Lemma quiet_catchFetch provider settled : quiet (catchFetch provider settled).
Proof.
  destruct settled; cbn [catchFetch]; [done| |];
    by destruct (negb (isGemini provider) && _).
Qed.

Lemma quiet_throwUnlessOk provider response : quiet (throwUnlessOk provider response).
Proof. unfold throwUnlessOk. by destruct (negb (ok response)). Qed.

Lemma quiet_contentOrThrow content message : quiet (contentOrThrow content message).
Proof. destruct content as [c|]; simpl; [by destruct (truthy c)|done]. Qed.

Lemma quiet_reply provider response : quiet (reply provider response).
Proof.
  destruct provider; cbn [reply]; unfold geminiReply, chatReply;
    (apply quiet_bind; [apply quiet_throwUnlessOk|]); intros _;
    (apply quiet_bind; [unfold readJson; by destruct (json response)|]); intros b;
    apply quiet_contentOrThrow.
Qed.

Lemma quiet_probeReply provider response : quiet (probeReply provider response).
Proof.
  unfold probeReply. apply quiet_bind; [apply quiet_throwUnlessOk|done].
Qed.

(** X1. Run against any network, [requestChatCompletion] and [testConnector]
    issue at most one request, whatever the settings, the history and the
    answers of the network. *)
Theorem at_most_one_request (history : list Message) (settings : LlmSettings)
    (net : Network) :
  (length (snd (run net (requestChatCompletion history settings))) <= 1)%nat
  /\ (length (snd (run net (testConnector settings))) <= 1)%nat.
Proof.
  split.
  - destruct (requestChatCompletion history settings) as [a | e | url init cont] eqn:E;
      [simpl; lia..|].
    cbn [run]. rewrite (complete_shape _ _ _ _ _ E).
    destruct (run net _) as [out calls] eqn:Er. cbn [snd length].
    replace calls with (snd (run net (response ← catchFetch (providerOf settings) (net url init);
                                      reply (providerOf settings) response)))
      by (by rewrite Er).
    rewrite quiet_run; [simpl; lia|].
    apply quiet_bind; [apply quiet_catchFetch|apply quiet_reply].
  - destruct (testConnector settings) as [a | e | url init cont] eqn:E;
      [simpl; lia..|].
    cbn [run]. rewrite (probe_shape _ _ _ _ E).
    destruct (run net _) as [out calls] eqn:Er. cbn [snd length].
    replace calls with (snd (run net (response ← catchFetch (providerOf settings) (net url init);
                                      probeReply (providerOf settings) response)))
      by (by rewrite Er).
    rewrite quiet_run; [simpl; lia|].
    apply quiet_bind; [apply quiet_catchFetch|apply quiet_probeReply].
Qed.

Lemma catchFetch_rejected provider settled m :
  rejection settled = Some m ->
  catchFetch provider settled
  = if negb (isGemini provider) && includes (toLowerCase m) (js "failed to fetch")
    then Throw (Error (js "OpenAI-compatible request failed in browser (Failed to fetch). This is commonly CORS/network policy. Use Gemini preset, Ollama local preset, or route requests through your own backend relay."))
    else Throw (Error (providerName provider
           ++ js " request could not reach the endpoint (" ++ m
           ++ js "). Check internet access, endpoint URL, CORS/referrer restrictions, and firewall/proxy settings.")).
Proof.
  destruct settled as [response | m' |]; cbn [rejection catchFetch].
  - done.
  - intros E. apply (inj Some) in E. by subst m'.
  - intros E. apply (inj Some) in E. by subst m.
Qed.

(** X2. A request that the network rejects never surfaces as it is. On the
    Gemini path [requestChatCompletion] and [testConnector] throw an [Error]
    that names Gemini and quotes the message of the rejection ([Unknown
    network error] when there is none); on the other path they throw the fixed
    CORS hint when the message contains [failed to fetch] in any case, and the
    same kind of quoting message otherwise. Nothing of the response handling
    runs. *)
Theorem network_failure_reclassified (history : list Message)
    (settings : LlmSettings) (settled : Settled) (m : jsstring) :
  rejection settled = Some m ->
  let provider := providerOf settings in
  let hint :=
    if negb (isGemini provider) && includes (toLowerCase m) (js "failed to fetch")
    then js "OpenAI-compatible request failed in browser (Failed to fetch). This is commonly CORS/network policy. Use Gemini preset, Ollama local preset, or route requests through your own backend relay."
    else providerName provider ++ js " request could not reach the endpoint (" ++ m
         ++ js "). Check internet access, endpoint URL, CORS/referrer restrictions, and firewall/proxy settings." in
  (forall url init cont,
     requestChatCompletion history settings = Fetch url init cont ->
     cont settled = Throw (Error hint))
  /\ (forall url init cont,
        testConnector settings = Fetch url init cont ->
        cont settled = Throw (Error hint))
  /\ (isGemini provider = true -> includes hint m = true).
Proof.
  intros Hm. cbv zeta. split; [|split].
  - intros url init cont E. rewrite (complete_shape _ _ _ _ _ E).
    rewrite (catchFetch_rejected _ _ _ Hm).
    by destruct (negb (isGemini (providerOf settings)) && _).
  - intros url init cont E. rewrite (probe_shape _ _ _ _ E).
    rewrite (catchFetch_rejected _ _ _ Hm).
    by destruct (negb (isGemini (providerOf settings)) && _).
  - intros ->. cbn [negb andb].
    repeat first [apply includes_start | apply includes_skip].
Qed.

(** X3. A response whose status is outside 200 to 299 makes
    [requestChatCompletion] and [testConnector] throw the message of
    [formatProviderHttpError] for the provider of the endpoint, the status and
    the body text; the JSON of the body is not looked at. *)
Theorem http_failure_thrown (history : list Message) (settings : LlmSettings)
    (response : Response) :
  ok response = false ->
  (forall url init cont,
     requestChatCompletion history settings = Fetch url init cont ->
     cont (Resolved response)
     = Throw (Error (formatProviderHttpError (providerOf settings)
                       (status response) (text response))))
  /\ (forall url init cont,
        testConnector settings = Fetch url init cont ->
        cont (Resolved response)
        = Throw (Error (formatProviderHttpError (providerOf settings)
                          (status response) (text response)))).
Proof.
  intros Hok. split; intros url init cont E.
  - rewrite (complete_shape _ _ _ _ _ E). cbn [catchFetch mbind Prog_bind bind].
    destruct (providerOf settings); cbn [reply]; unfold geminiReply, chatReply, throwUnlessOk;
      by rewrite Hok.
  - rewrite (probe_shape _ _ _ _ E). cbn [catchFetch mbind Prog_bind bind].
    unfold probeReply, throwUnlessOk. by rewrite Hok.
Qed.

(** X4. An OpenAI-compatible response with a status from 200 to 299 and a JSON
    body: [requestChatCompletion] returns the content of the message of the
    first choice, trimmed, when that is not empty; it throws the
    empty-response error when the content is empty after trimming or when the
    choices, the first choice, its message or its content are absent. It never
    returns the empty string. *)
Theorem openai_reply_text (history : list Message) (settings : LlmSettings)
    url init cont (response : Response) (b : JsonBody) :
  isGeminiEndpoint (trim (endpoint settings)) = false ->
  requestChatCompletion history settings = Fetch url init cont ->
  ok response = true ->
  json response = Some b ->
  (forall c0 rest message answer,
     choices (asChatCompletionResponse b) = Some (c0 :: rest) ->
     choice_message c0 = Some message ->
     message_content message = Some answer ->
     cont (Resolved response)
     = if truthy (trim answer) then Return (trim answer)
       else Throw (Error chatEmptyResponse))
  /\ (chatContent (asChatCompletionResponse b) = None ->
      cont (Resolved response) = Throw (Error chatEmptyResponse))
  /\ cont (Resolved response) <> Return [].
Proof.
  intros Hg Hreq Hok Hjson.
  rewrite (complete_shape _ _ _ _ _ Hreq). unfold providerOf. rewrite Hg.
  cbn [catchFetch mbind Prog_bind bind reply].
  unfold chatReply, throwUnlessOk, readJson. rewrite Hok, Hjson.
  cbn [negb mbind Prog_bind bind]. unfold chatEmptyResponse.
  split; [|split].
  - intros c0 rest message answer H1 H2 H3. unfold chatContent.
    rewrite H1. cbn [mbind option_bind head]. rewrite H2. cbn [mbind option_bind].
    rewrite H3. reflexivity.
  - by intros ->.
  - apply contentOrThrow_nonempty.
Qed.

(** X5.  The probe of [testConnector] goes where a completion would go:
    for the same settings, either both programs stop before any request,
    or both issue a request, to the same URL, with the same method and the
    same headers, whatever the history. *)
Theorem probe_same_target (history : list Message) (settings : LlmSettings) :
  target (testConnector settings) = target (requestChatCompletion history settings).
Proof.
  unfold testConnector, requestChatCompletion.
  destruct (negb (truthy (trim (endpoint settings)))); [cbn [target]; reflexivity|].
  destruct (throwIfProblem_cases
              (validateProviderSettings (trim (endpoint settings)) (resolveApiKey settings)))
    as [-> | [message ->]]; [|cbn [mbind Prog_bind bind target]; reflexivity].
  cbn [mbind Prog_bind bind].
  destruct (isGeminiEndpoint (trim (endpoint settings))).
  - destruct (withGeminiApiKey_cases
                (withGeminiModel (trim (endpoint settings)) (model settings))
                (resolveApiKey settings)) as [[u ->] | ->];
      cbn [bind safeFetch target method headers]; reflexivity.
  - cbn [bind safeFetch target method headers]. reflexivity.
Qed.

(** X6. A Gemini endpoint that passes the checks but is not a URL, with a key
    to add: [requestChatCompletion] and [testConnector] fail with the
    [TypeError] of the [URL] constructor, before any request. *)
Theorem invalid_url_throws (history : list Message) (settings : LlmSettings) :
  let e := trim (endpoint settings) in
  let k := resolveApiKey settings in
  e <> [] ->
  validateProviderSettings e k = None ->
  isGeminiEndpoint e = true ->
  k <> [] ->
  newURL (withGeminiModel e (model settings)) = None ->
  requestChatCompletion history settings = Throw InvalidURL
  /\ testConnector settings = Throw InvalidURL.
Proof.
  cbv zeta. intros He%truthy_true Hv Hg Hk%truthy_true Hu.
  unfold requestChatCompletion, testConnector. rewrite He, Hv, Hg.
  cbn [negb throwIfProblem mbind Prog_bind bind].
  unfold withGeminiApiKey. rewrite resolveApiKey_trimmed, Hk, Hu. by split.
Qed.

(** X7.  The resolved key is trimmed.  The key of the settings wins when
    it is not blank; the resolved key is empty exactly when the key of the
    settings is blank and the key of the environment is absent or blank. *)
Theorem resolveApiKey_resolution (settings : LlmSettings) :
  trim (resolveApiKey settings) = resolveApiKey settings
  /\ cleanStart (resolveApiKey settings) /\ cleanEnd (resolveApiKey settings)
  /\ (trim (apiKey settings) <> [] -> resolveApiKey settings = trim (apiKey settings))
  /\ (resolveApiKey settings = []
      <-> trim (apiKey settings) = [] /\ trim (default [] VITE_GOD_API_KEY) = []).
Proof.
  split; [apply resolveApiKey_trimmed|].
  unfold resolveApiKey.
  destruct (truthy (trim (apiKey settings))) eqn:E.
  - apply truthy_true in E. split; [apply trim_clean|]. split; [apply trim_clean|].
    split; [done|]. split; [done|]. by intros [? _].
  - apply truthy_false in E. split; [apply trim_clean|]. split; [apply trim_clean|].
    split; [done|]. split; [done|]. by intros [_ ?].
Qed.

Lemma jsonHeaders_no_authorization : jsonHeaders !! js "Authorization" = None.
Proof.
  unfold jsonHeaders. apply lookup_singleton_ne.
  intros E. by apply header_names_differ.
Qed.

Lemma validate_None_shape endpointValue key :
  validateProviderSettings endpointValue key = None ->
  isLocalOllamaEndpoint endpointValue = false ->
  trim key <> [] ->
  startsWith (trim key) (js "AIza") = isGeminiEndpoint endpointValue.
Proof.
  unfold validateProviderSettings. intros Hv Hl Hk%truthy_true.
  rewrite Hl, Hk in Hv. cbn [negb] in Hv.
  destruct (isGeminiEndpoint endpointValue), (startsWith (trim key) (js "AIza"));
    cbn [negb andb] in Hv; done.
Qed.

(** X8. What a request of [requestChatCompletion] or [testConnector] carries
    as credentials. A request to a Gemini endpoint has no [Authorization]
    header. A request with an [Authorization] header to an endpoint that is
    not a loopback endpoint never carries a key that starts with [AIza]: a
    Google key is not sent as a bearer token to another provider. *)
Theorem credentials_by_provider (history : list Message) (settings : LlmSettings)
    url verb hdrs :
  target (requestChatCompletion history settings) = Some (url, verb, hdrs)
  \/ target (testConnector settings) = Some (url, verb, hdrs) ->
  (isGeminiEndpoint (trim (endpoint settings)) = true ->
   hdrs !! js "Authorization" = None)
  /\ (isLocalOllamaEndpoint (trim (endpoint settings)) = false ->
      is_Some (hdrs !! js "Authorization") ->
      hdrs !! js "Authorization" = Some (js "Bearer " ++ resolveApiKey settings)
      /\ startsWith (resolveApiKey settings) (js "AIza") = false).
Proof.
  intros Ht.
  assert (target (requestChatCompletion history settings) = Some (url, verb, hdrs))
    as Hreq by (destruct Ht as [?|Ht]; [done|by rewrite <- probe_same_target]).
  clear Ht. revert Hreq. unfold requestChatCompletion.
  destruct (negb (truthy (trim (endpoint settings)))); [done|].
  destruct (validateProviderSettings (trim (endpoint settings)) (resolveApiKey settings))
    as [problem|] eqn:Hv.
  { cbn [throwIfProblem].
    destruct (truthy problem) eqn:Hp; [done|].
    apply truthy_false in Hp. subst problem.
    destruct (validate_Some _ _ _ Hv) as [E | E]; symmetry in E.
    - by apply geminiKeyProblem_nonempty in E.
    - by apply openaiKeyProblem_nonempty in E. }
  cbn [throwIfProblem mbind Prog_bind bind].
  destruct (isGeminiEndpoint (trim (endpoint settings))) eqn:Hg.
  - destruct (withGeminiApiKey_cases
                (withGeminiModel (trim (endpoint settings)) (model settings))
                (resolveApiKey settings)) as [[u ->] | ->]; [|done].
    cbn [bind safeFetch target method headers]. intros E.
    apply (inj Some), (f_equal snd) in E. cbn [snd headers] in E. subst hdrs.
    rewrite jsonHeaders_no_authorization. split; [done|].
    intros _ [x Hx]. discriminate Hx.
  - cbn [bind safeFetch target method headers]. intros E.
    apply (inj Some), (f_equal snd) in E. cbn [snd headers] in E. subst hdrs.
    split; [done|]. intros Hlocal Hauth.
    destruct (buildHeaders_lookup settings) as [_ Hlookup]. rewrite Hlookup in *.
    destruct (truthy (resolveApiKey settings)) eqn:Hk; [|by destruct Hauth].
    split; [done|]. apply truthy_true in Hk.
    rewrite <- (resolveApiKey_trimmed settings) in Hk.
    pose proof (validate_None_shape _ _ Hv Hlocal Hk) as Hshape.
    by rewrite resolveApiKey_trimmed, Hg in Hshape.
Qed.

End WithHost.

Lemma sample_openai_posts :
  exists url init cont,
    requestChatCompletion (H := refHost None) sampleHistory openaiSettings
    = Fetch url init cont.
Proof.
  assert (posted (requestChatCompletion (H := refHost None) sampleHistory openaiSettings)
          <> None) as Hp by by_evaluation.
  destruct (requestChatCompletion (H := refHost None) sampleHistory openaiSettings)
    as [a | e | url init cont]; [by destruct Hp..|]. by eauto.
Qed.

(** X2 at a Gemini request that the browser refuses to send. *)
Lemma network_failure_reclassified_witness :
  exists url init cont message,
    requestChatCompletion (H := refHost None) sampleHistory geminiSettings
    = Fetch url init cont
    /\ cont (RejectedWith (js "Failed to fetch")) = Throw (Error message)
    /\ includes message (js "Failed to fetch") = true.
Proof.
  destruct sample_complete_posts as (url & init & cont & Hreq).
  assert (isGemini (providerOf geminiSettings) = true) as Hp
    by by_evaluation.
  destruct (network_failure_reclassified (H := refHost None) sampleHistory geminiSettings
              (RejectedWith (js "Failed to fetch")) (js "Failed to fetch") eq_refl)
    as (Hc & _ & Hinc).
  exists url, init, cont. eexists. split; [exact Hreq|].
  split; [exact (Hc _ _ _ Hreq)|exact (Hinc Hp)].
Defined.

(** X3 at a 401 of an OpenAI-compatible endpoint. *)
Lemma http_failure_thrown_witness :
  exists url init cont,
    requestChatCompletion (H := refHost None) sampleHistory openaiSettings
    = Fetch url init cont
    /\ cont (Resolved unauthorizedResponse)
       = Throw (Error (formatProviderHttpError
                         (providerOf openaiSettings)
                         (status unauthorizedResponse) (text unauthorizedResponse))).
Proof.
  destruct sample_openai_posts as (url & init & cont & Hreq).
  assert (ok unauthorizedResponse = false) as Hok by by_evaluation.
  exists url, init, cont. split; [exact Hreq|].
  exact (proj1 (http_failure_thrown (H := refHost None) sampleHistory openaiSettings
                  unauthorizedResponse Hok) _ _ _ Hreq).
Defined.

(** X4 at a completion with one choice. *)
Lemma openai_reply_text_witness :
  exists url init cont,
    requestChatCompletion (H := refHost None) sampleHistory openaiSettings
    = Fetch url init cont
    /\ cont (Resolved chatOkResponse) = Return (js "Hello there.").
Proof.
  destruct sample_openai_posts as (url & init & cont & Hreq).
  assert (isGeminiEndpoint (trim (endpoint openaiSettings)) = false) as Hg
    by by_evaluation.
  exists url, init, cont. split; [exact Hreq|].
  pose proof (proj1 (openai_reply_text (H := refHost None) sampleHistory openaiSettings
                       url init cont chatOkResponse oneChoice Hg Hreq eq_refl eq_refl)
                _ _ _ _ eq_refl eq_refl eq_refl) as Hreply.
  rewrite Hreply.
  assert (trim (js " Hello there. ") = js "Hello there.") as -> by by_evaluation.
  assert (truthy (js "Hello there.") = true) as -> by by_evaluation.
  reflexivity.
Defined.

(** X6 at a Gemini endpoint written without its scheme. *)
Lemma invalid_url_throws_witness :
  requestChatCompletion (H := refHost None) sampleHistory schemelessSettings
  = Throw InvalidURL.
Proof.
  assert (trim (endpoint schemelessSettings) <> []) as He by by_evaluation.
  assert (validateProviderSettings (H := refHost None) (trim (endpoint schemelessSettings))
            (resolveApiKey (H := refHost None) schemelessSettings) = None) as Hv
    by by_evaluation.
  assert (isGeminiEndpoint (trim (endpoint schemelessSettings)) = true) as Hg
    by by_evaluation.
  assert (resolveApiKey (H := refHost None) schemelessSettings <> []) as Hk
    by by_evaluation.
  assert (newURL (Host := refHost None)
            (withGeminiModel (trim (endpoint schemelessSettings))
                             (model schemelessSettings)) = None) as Hu
    by by_evaluation.
  exact (proj1 (invalid_url_throws (H := refHost None) sampleHistory schemelessSettings
                  He Hv Hg Hk Hu)).
Defined.

(** X8 at the sample OpenAI settings. *)
Lemma credentials_by_provider_witness :
  buildHeaders (H := refHost None) openaiSettings !! js "Authorization"
  = Some (js "Bearer " ++ resolveApiKey (H := refHost None) openaiSettings)
  /\ startsWith (resolveApiKey (H := refHost None) openaiSettings) (js "AIza") = false.
Proof.
  assert (target (requestChatCompletion (H := refHost None) sampleHistory openaiSettings)
          = Some (trim (endpoint openaiSettings), js "POST",
                  buildHeaders (H := refHost None) openaiSettings)) as Ht
    by by_evaluation.
  assert (isLocalOllamaEndpoint (H := refHost None) (trim (endpoint openaiSettings))
          = false) as Hl by by_evaluation.
  assert (buildHeaders (H := refHost None) openaiSettings !! js "Authorization"
          = Some (js "Bearer sk-example")) as Ha by by_evaluation.
  exact (proj2 (credentials_by_provider (H := refHost None) sampleHistory openaiSettings
                  _ _ _ (or_introl Ht)) Hl (ex_intro _ _ Ha)).
Defined.

End ConnectorFacts.

(** ** Soundness of the matcher *)

Module MatcherFacts.
Import JS RegExp Types Platform Automation Spec AutomationSpec JSFacts RegExpFacts.

Lemma RepeatMatcher_sound ic r (m : Matcher) :
  SoundMatcher ic r m ->
  forall fuel min max greedy x c z,
    RepeatMatcher m fuel min max greedy x c = Some z ->
    exists y w,
      remaining x = w ++ remaining y
      /\ endIndex y = (endIndex x + length w)%nat
      /\ Lang ic (Repeat r min max greedy) w
      /\ c y = Some z.
Proof.
  intros Hm. induction fuel as [|fuel IH]; intros min max greedy x c z; [done|].
  rewrite RepeatMatcher_step.
  assert (c x = Some z -> min = 0%nat \/ max = Some 0%nat ->
          exists y w, remaining x = w ++ remaining y
            /\ endIndex y = (endIndex x + length w)%nat
            /\ Lang ic (Repeat r min max greedy) w /\ c y = Some z) as Hstop.
  { intros Hc Hcase. exists x, []. split; [done|]. split; [simpl; lia|].
    split; [|done]. destruct Hcase as [-> | ->]; constructor. }
  assert (max <> Some 0%nat ->
          m x (fun y =>
                 if Nat.eqb min 0 && Nat.eqb (endIndex y) (endIndex x) then None
                 else RepeatMatcher m fuel (Nat.pred min) (Nat.pred <$> max) greedy y c)
          = Some z ->
          exists y w, remaining x = w ++ remaining y
            /\ endIndex y = (endIndex x + length w)%nat
            /\ Lang ic (Repeat r min max greedy) w /\ c y = Some z) as Hmore.
  { intros Hmax Hstep. apply Hm in Hstep as (y1 & w1 & E1 & I1 & L1 & Hd).
    destruct (Nat.eqb min 0 && Nat.eqb (endIndex y1) (endIndex x)); [done|].
    apply IH in Hd as (y2 & w2 & E2 & I2 & L2 & Hc).
    exists y2, (w1 ++ w2). split; [by rewrite E1, E2, app_assoc|].
    split; [rewrite length_app; lia|]. split; [by constructor|done]. }
  destruct max as [[|k]|].
  - intros Hc. apply Hstop; auto.
  - cbv zeta. destruct (negb (Nat.eqb min 0)) eqn:Emin.
    + by apply Hmore.
    + apply negb_false_iff, Nat.eqb_eq in Emin.
      destruct greedy.
      * destruct (m x _) eqn:Em.
        -- intros [= ->]. by apply Hmore.
        -- intros Hc. apply Hstop; auto.
      * destruct (c x) eqn:Ec.
        -- intros [= ->]. apply Hstop; auto.
        -- by apply Hmore.
  - cbv zeta. destruct (negb (Nat.eqb min 0)) eqn:Emin.
    + by apply Hmore.
    + apply negb_false_iff, Nat.eqb_eq in Emin.
      destruct greedy.
      * destruct (m x _) eqn:Em.
        -- intros [= ->]. by apply Hmore.
        -- intros Hc. apply Hstop; auto.
      * destruct (c x) eqn:Ec.
        -- intros [= ->]. apply Hstop; auto.
        -- by apply Hmore.
Qed.

(** Every compiled pattern is a sound matcher. *)
Lemma compile_sound ic r : SoundMatcher ic r (compile ic r).
Proof.
  induction r as [| ch | p | r1 IH1 r2 IH2 | r1 IH1 r2 IH2 | r IH min max greedy | n r IH];
    intros x c z.
  - cbn [compile]. intros Hc. exists x, []. repeat split; [simpl; lia|constructor|done].
  - cbn [compile]. destruct (remaining x) as [|a rest] eqn:E; [done|].
    destruct (canonicalize ic ch =? canonicalize ic a) eqn:Ea; [|done].
    apply N.eqb_eq in Ea. intros Hc. exists (advance x rest), [a].
    repeat split; [simpl; lia|by constructor|done].
  - cbn [compile]. destruct (remaining x) as [|a rest] eqn:E; [done|].
    destruct (p a) eqn:Ea; [|done].
    intros Hc. exists (advance x rest), [a].
    repeat split; [simpl; lia|by constructor|done].
  - rewrite compile_seq. intros H1.
    apply IH1 in H1 as (y1 & w1 & E1 & I1 & L1 & H2).
    apply IH2 in H2 as (y2 & w2 & E2 & I2 & L2 & Hc).
    exists y2, (w1 ++ w2). split; [by rewrite E1, E2, app_assoc|].
    split; [rewrite length_app; lia|]. split; [by constructor|done].
  - cbn [compile]. destruct (compile ic r1 x c) eqn:H1.
    + intros [= ->]. apply IH1 in H1 as (y & w & E & I & L & Hc).
      exists y, w. repeat split; try done. by apply Lang_Alt_l.
    + intros H2. apply IH2 in H2 as (y & w & E & I & L & Hc).
      exists y, w. repeat split; try done. by apply Lang_Alt_r.
  - rewrite compile_repeat. by apply RepeatMatcher_sound.
  - cbn [compile]. intros H1. apply IH in H1 as (y & w & E & I & L & Hc).
    eexists _, w. split; [|split; [|split; [by constructor|exact Hc]]]; done.
Qed.

(** A match at an index is a string of the pattern, found there. *)
Lemma matchHere_sound re i rest m :
  matchHere re i rest = Some m ->
  exists w post,
    rest = w ++ post
    /\ Lang (ignoreCase re) (source re) w
    /\ index m = i /\ lastIndex m = (i + length w)%nat.
Proof.
  unfold matchHere.
  destruct (compile _ _ _ _) as [z|] eqn:E; [|done]. intros [= <-].
  apply compile_sound in E as (y & w & E & I & L & Hc).
  injection Hc as <-. cbn [remaining endIndex] in *.
  exists w, (remaining y). by repeat split.
Qed.

Lemma substring_middle (pre w post : jsstring) :
  substring (length pre) (length pre + length w) (pre ++ w ++ post) = w.
Proof.
  unfold substring. rewrite drop_app_length.
  replace (length pre + length w - length pre)%nat with (length w) by lia.
  by rewrite take_app_length.
Qed.

(** What [execFrom] finds at or after an index of [s] is a string of the
    pattern, and it is the text between the two indices of the match. *)
Lemma execFrom_sound re s i m :
  (i <= length s)%nat ->
  execFrom re i (drop i s) = Some m ->
  Lang (ignoreCase re) (source re) (matched s m)
  /\ (i <= index m)%nat /\ (index m <= lastIndex m)%nat
  /\ (lastIndex m <= length s)%nat.
Proof.
  intros Hi Hexec. apply execFrom_Some in Hexec as (k & Hk & Hat & _).
  rewrite drop_drop in Hat. rewrite length_drop in Hk.
  apply matchHere_sound in Hat as (w & post & Hsplit & HL & Hidx & Hlast).
  assert (s = take (i + k) s ++ w ++ post) as Hs by (by rewrite <- Hsplit, take_drop).
  assert (length (take (i + k) s) = (i + k)%nat) as Hlen by (rewrite length_take; lia).
  assert (matched s m = w) as ->.
  { unfold matched. rewrite Hidx, Hlast, <- Hlen. rewrite Hs at 3.
    apply substring_middle. }
  split; [done|]. rewrite Hidx, Hlast.
  apply (f_equal length) in Hs. rewrite !length_app, Hlen in Hs. lia.
Qed.

Lemma matchesFrom_sound re fuel s i :
  Forall (fun m => Lang (ignoreCase re) (source re) (matched s m))
         (matchesFrom re fuel s i).
Proof.
  revert i. induction fuel as [|fuel IH]; intros i; [constructor|].
  cbn [matchesFrom]. destruct (length s <? i)%nat eqn:Ei; [constructor|].
  apply Nat.ltb_ge in Ei.
  destruct (execFrom re i (drop i s)) as [m|] eqn:E; [|constructor].
  cbv zeta. constructor; [|apply IH].
  by apply execFrom_sound in E as [HL _].
Qed.

(** Every string that [match] returns for a pattern with [g] is a string
    of the pattern. *)
Lemma matchAllG_sound re s found :
  matchAllG re s = Some found ->
  Forall (Lang (ignoreCase re) (source re)) found.
Proof.
  unfold matchAllG. pose proof (matchesFrom_sound re (S (S (length s))) s 0) as Hall.
  destruct (matchesFrom re (S (S (length s))) s 0) as [|m ms]; [done|].
  intros E. apply (inj Some) in E. subst found. by apply List.Forall_map.
Qed.

End MatcherFacts.

(** ** Further properties of the automation engine *)

Module AutomationMore.
Import JS RegExp Types Platform Automation Spec AutomationSpec JSFacts RegExpFacts.
Import MatcherFacts LlmFacts AutomationFacts.

(** *** Reading the language of the patterns of the source *)

Lemma Lang_lit_exact s w : Lang false (lit s) w -> w = s.
Proof.
  revert w. induction s as [|c s IH]; intros w Hw; cbn [lit] in Hw.
  - by inversion Hw.
  - inversion Hw as [| | |r1 r2 w1 w2 H1 H2| | | | | |]; subst.
    inversion H1; subst. apply IH in H2 as ->.
    unfold canonicalize in *. cbn [andb] in *. by subst.
Qed.

Lemma Lang_opt ic r w : Lang ic (Opt r) w -> w = [] \/ Lang ic r w.
Proof.
  unfold Opt. intros Hw.
  inversion Hw as [| | | | | |? ? ?|? ? ?|r' min max g w1 w2 Hmax H1 H2|]; subst;
    [by left|].
  cbn in H2. right.
  inversion H2 as [| | | | | |? ? ?|? ? ?|? ? ? ? ? ? Hmax' ? ?|]; subst;
    rewrite ?app_nil_r; done.
Qed.

Lemma Lang_repeat_set ic p r w :
  Lang ic r w ->
  forall min greedy, r = Repeat (CharSet p) min None greedy ->
  Forall (fun c => p c = true) w /\ (min <= length w)%nat.
Proof.
  induction 1 as [| | | | | |r0 max g|r0 min0 g|r0 min0 max g w1 w2 Hmax H1 _ H2 IH2|];
    intros min greedy E; try discriminate E.
  - injection E as E1 E2 E3 E4. subst. split; [constructor|simpl; lia].
  - injection E as E1 E2 E3 E4. subst.
    inversion H1; subst. destruct (IH2 (Nat.pred min) greedy eq_refl) as [Hall Hlen].
    split; [by constructor|]. simpl. lia.
Qed.

Lemma Lang_seq ic r1 r2 w :
  Lang ic (Seq r1 r2) w ->
  exists w1 w2, w = w1 ++ w2 /\ Lang ic r1 w1 /\ Lang ic r2 w2.
Proof. intros Hw. inversion Hw; subst. by eauto. Qed.

Lemma Lang_set ic p w :
  Lang ic (CharSet p) w -> exists a, w = [a] /\ p a = true.
Proof. intros Hw. inversion Hw; subst. by eauto. Qed.

Lemma Lang_url w :
  Lang false (source urlRegExp) w ->
  exists rest,
    rest <> [] /\ Forall (fun c => notSpace c = true) rest
    /\ (w = js "http://" ++ rest \/ w = js "https://" ++ rest).
Proof.
  unfold urlRegExp. cbn [source]. intros Hw.
  apply Lang_seq in Hw as (w1 & x1 & -> & H1 & Hw).
  apply Lang_seq in Hw as (w2 & x2 & -> & H2 & Hw).
  apply Lang_seq in Hw as (w3 & w4 & -> & H3 & H4).
  apply Lang_lit_exact in H1 as ->. apply Lang_lit_exact in H3 as ->.
  destruct (Lang_repeat_set _ _ _ _ H4 1%nat true eq_refl) as [Hall Hlen].
  exists w4. split; [by destruct w4; simpl in Hlen; [lia|]|]. split; [done|].
  apply Lang_opt in H2 as [-> | ->%Lang_lit_exact]; [left|right];
    vm_compute; reflexivity.
Qed.

Lemma Lang_question w :
  Lang false (source questionRegExp) w ->
  exists body, w = body ++ js "?" /\ body <> [] /\ Forall (fun c => c <> 63) body.
Proof.
  unfold questionRegExp. cbn [source]. intros Hw.
  apply Lang_seq in Hw as (w1 & x1 & -> & H1 & Hw).
  apply Lang_seq in Hw as (w2 & w3 & -> & H2 & H3).
  apply Lang_lit_exact in H3 as ->.
  apply Lang_set in H1 as (a & -> & Ha).
  destruct (Lang_repeat_set _ _ _ _ H2 0%nat true eq_refl) as [Hall _].
  exists (a :: w2). split; [done|]. split; [done|].
  assert (forall c, noneOf (js "?") c = true -> c <> 63) as Hq.
  { intros c Hc ->. revert Hc. vm_compute. discriminate. }
  constructor.
  - intros ->. revert Ha. vm_compute. discriminate.
  - eapply Forall_impl; [exact Hall|]. exact Hq.
Qed.

(** *** Lists *)

Lemma filter_sublist {A} (f : A -> bool) (l : list A) : List.filter f l `sublist_of` l.
Proof.
  induction l as [|x l IH]; [done|]. cbn [List.filter].
  destruct (f x); [by apply sublist_skip|by apply sublist_cons].
Qed.

Lemma filter_filter {A} (f : A -> bool) (l : list A) :
  List.filter f (List.filter f l) = List.filter f l.
Proof.
  induction l as [|x l IH]; [done|]. cbn [List.filter].
  destruct (f x) eqn:E; [|done]. cbn [List.filter]. by rewrite E, IH.
Qed.

Lemma uniqueFrom_spec seen words :
  NoDup (uniqueFrom seen words)
  /\ Forall (fun w => w ∉ seen) (uniqueFrom seen words)
  /\ uniqueFrom seen words `sublist_of` words.
Proof.
  revert seen. induction words as [|w ws IH]; intros seen; cbn [uniqueFrom].
  - split; [constructor|]. split; [constructor|done].
  - case_bool_decide as Hw.
    + destruct (IH seen) as (Hn & Hs & Hsub). split; [done|]. split; [done|].
      by apply sublist_cons.
    + destruct (IH (w :: seen)) as (Hn & Hs & Hsub). split; [|split].
      * constructor; [|done]. intros Hin.
        rewrite Forall_forall in Hs. apply (Hs w Hin). by left.
      * constructor; [done|]. eapply Forall_impl; [exact Hs|].
        intros x Hx Hin. apply Hx. by right.
      * by apply sublist_skip.
Qed.

Section WithHost.
Context `{Host}.

(** X9.  Only the enabled tasks and the trimmed prompt count: running the
    engine on a prompt and a list of tasks gives what it gives on the
    trimmed prompt and the enabled tasks alone. *)
Theorem runAutomation_normal_form (prompt : jsstring) (tasks : list AutomationTask) :
  runAutomation prompt tasks
  = runAutomation (trim prompt) (List.filter enabled tasks).
Proof. unfold runAutomation. by rewrite filter_filter, trim_idemp. Qed.

Lemma strEq_refl s : strEq s s = true.
Proof. unfold strEq. by apply bool_decide_eq_true. Qed.

(** X10.  The block of [summarize] is the name between brackets, a line
    break and the prompt, which is cut at 300 units and followed by three
    dots when it is longer: a prompt of at most 300 units is given whole,
    and the block is never longer than the name plus 306 units. *)
Theorem summarize_bounded (cleanedPrompt : jsstring) (task : AutomationTask) :
  id task = js "summarize" ->
  ((length cleanedPrompt <= 300)%nat ->
   taskOutput cleanedPrompt task = (js "[" ++ name task ++ js "]") ++ nl ++ cleanedPrompt)
  /\ ((300 < length cleanedPrompt)%nat ->
      taskOutput cleanedPrompt task
      = (js "[" ++ name task ++ js "]") ++ nl ++ take 300 cleanedPrompt ++ js "...")
  /\ (length (taskOutput cleanedPrompt task) <= length (name task) + 306)%nat.
Proof.
  intros Hid. unfold taskOutput. rewrite Hid, strEq_refl.
  unfold summarize, label, slice0.
  assert (length (js "[") = 1%nat) as H1 by (vm_compute; reflexivity).
  assert (length (js "]") = 1%nat) as H2 by (vm_compute; reflexivity).
  assert (length (js "...") = 3%nat) as H3 by (vm_compute; reflexivity).
  assert (length nl = 1%nat) as H4 by reflexivity.
  destruct (300 <? length cleanedPrompt)%nat eqn:E.
  - apply Nat.ltb_lt in E. split; [lia|]. split; [done|].
    rewrite !length_app, length_take, H1, H2, H3, H4. lia.
  - apply Nat.ltb_ge in E. split; [done|]. split; [lia|].
    rewrite !length_app, H1, H2, H4. lia.
Qed.

(** Which [case] an id selects. *)
Ltac settle_cases :=
  repeat match goal with
         | |- context [strEq (js ?a) (js ?b)] =>
             let v := eval vm_compute in (strEq (js a) (js b)) in
             replace (strEq (js a) (js b)) with v by (vm_compute; reflexivity)
         end.

(** X11.  The verdict of [safety-check].  The block says the prompt is
    safe exactly when its lower-case form contains none of the three terms
    of the deny list; otherwise it asks for a manual review and lists the
    terms found, in the order of the deny list. *)
Theorem safety_verdict (cleanedPrompt : jsstring) (task : AutomationTask) :
  id task = js "safety-check" ->
  let safe := (js "[" ++ name task ++ js "]") ++ nl ++ js "✅ Safe to execute" in
  (blockedTerms cleanedPrompt = [] -> taskOutput cleanedPrompt task = safe)
  /\ (blockedTerms cleanedPrompt <> [] ->
      taskOutput cleanedPrompt task
      = (js "[" ++ name task ++ js "]") ++ nl
        ++ js "⚠️ Needs manual review (matched: "
        ++ join (js ", ") (blockedTerms cleanedPrompt) ++ js ")")
  /\ (taskOutput cleanedPrompt task = safe
      <-> Forall (fun term => includes (toLowerCase cleanedPrompt) term = false)
            [js "admin rights"; js "privilege escalation"; js "reverse engineer"]).
Proof.
  intros Hid. cbv zeta.
  assert (taskOutput cleanedPrompt task = safetyCheck task cleanedPrompt) as ->.
  { unfold taskOutput. rewrite Hid. by settle_cases. }
  unfold safetyCheck. cbv zeta. fold (blockedTerms cleanedPrompt). unfold label.
  assert (blockedTerms cleanedPrompt = []
          <-> Forall (fun term => includes (toLowerCase cleanedPrompt) term = false)
                [js "admin rights"; js "privilege escalation"; js "reverse engineer"])
    as Hnone.
  { unfold blockedTerms. cbn [List.filter].
    destruct (includes (toLowerCase cleanedPrompt) (js "admin rights")) eqn:E1,
             (includes (toLowerCase cleanedPrompt) (js "privilege escalation")) eqn:E2,
             (includes (toLowerCase cleanedPrompt) (js "reverse engineer")) eqn:E3;
      split; intros Hx; try discriminate Hx; try (repeat constructor; done);
      inversion Hx as [|? ? Ha Hx']; inversion Hx' as [|? ? Hb Hx''];
      inversion Hx'' as [|? ? Hc ?]; congruence. }
  destruct (blockedTerms cleanedPrompt) as [|term terms] eqn:Eb.
  - cbn [length Nat.eqb]. split; [done|]. split; [done|]. split; [by rewrite <- Hnone|done].
  - cbn [length Nat.eqb]. split; [done|]. split; [done|]. split.
    + intros Heq. exfalso. apply app_inv_head, app_inv_head in Heq.
      vm_compute in Heq. discriminate Heq.
    + intros Hall. apply Hnone in Hall. discriminate Hall.
Qed.

(** X12.  The words of [key-phrases].  The block lists them after [Key
    terms: ], separated by a comma and a space; they are at most five,
    each is longer than five units, no word comes twice, and they are
    pieces of the prompt between white space, in the order of the prompt. *)
Theorem key_terms (cleanedPrompt : jsstring) (task : AutomationTask) :
  id task = js "key-phrases" ->
  taskOutput cleanedPrompt task
  = (js "[" ++ name task ++ js "]") ++ nl ++ js "Key terms: "
    ++ join (js ", ") (keyTerms cleanedPrompt)
  /\ (length (keyTerms cleanedPrompt) <= 5)%nat
  /\ Forall (fun w => (5 < length w)%nat) (keyTerms cleanedPrompt)
  /\ NoDup (keyTerms cleanedPrompt)
  /\ keyTerms cleanedPrompt `sublist_of` split spacesRegExp cleanedPrompt.
Proof.
  intros Hid. split.
  { unfold taskOutput. rewrite Hid. by settle_cases. }
  unfold keyTerms, unique.
  set (words := List.filter (fun w => (5 <? length w)%nat)
                            (split spacesRegExp cleanedPrompt)).
  destruct (uniqueFrom_spec [] words) as (Hn & _ & Hsub).
  assert (take 5 (uniqueFrom [] words) `sublist_of` words) as Htake
    by (etrans; [apply sublist_take|done]).
  split; [rewrite length_take; lia|]. split; [|split].
  - apply Forall_forall. intros w Hw.
    assert (w ∈ words) as Hin by (by eapply elem_of_sublist).
    apply list_elem_of_In, List.filter_In in Hin as [_ Hlen].
    by apply Nat.ltb_lt.
  - eapply sublist_NoDup; [exact Hn|apply sublist_take].
  - etrans; [exact Htake|apply filter_sublist].
Qed.

(** X13.  The links of [extract-links].  The block gives their number and
    lists them, one to a line, or says there is none.  Each link starts
    with [http://] or [https://], in lower case, goes on with at least one
    more unit, and holds no white space. *)
Theorem links_shape (cleanedPrompt : jsstring) (task : AutomationTask) :
  id task = js "extract-links" ->
  taskOutput cleanedPrompt task
  = match links cleanedPrompt with
    | [] => (js "[" ++ name task ++ js "]") ++ nl ++ js "No links found in input."
    | found =>
        (js "[" ++ name task ++ js "]") ++ nl ++ js "Found "
        ++ Number_toString (N.of_nat (length found)) ++ js " link(s):" ++ nl
        ++ join nl (map (fun url => js "- " ++ url) found)
    end
  /\ Forall (fun link =>
               (exists rest, rest <> []
                  /\ (link = js "http://" ++ rest \/ link = js "https://" ++ rest))
               /\ Forall (fun c => isWhiteSpace c = false) link)
            (links cleanedPrompt).
Proof.
  intros Hid. split.
  { assert (taskOutput cleanedPrompt task = extractLinks task cleanedPrompt) as ->.
    { unfold taskOutput. rewrite Hid. by settle_cases. }
    unfold extractLinks. cbv zeta. fold (links cleanedPrompt).
    by destruct (links cleanedPrompt). }
  unfold links. destruct (matchAllG urlRegExp cleanedPrompt) as [found|] eqn:E;
    [|constructor].
  apply matchAllG_sound in E. cbn [default].
  eapply Forall_impl; [exact E|]. intros link Hlink.
  apply Lang_url in Hlink as (rest & Hrest & Hall & Hshape).
  split; [by eauto|].
  assert (Forall (fun c => isWhiteSpace c = false) rest) as Hclean.
  { eapply Forall_impl; [exact Hall|]. intros c Hc.
    unfold notSpace in Hc. by apply negb_true_iff in Hc. }
  destruct Hshape as [-> | ->]; apply Forall_app; (split; [|done]);
    vm_compute; repeat (constructor; [reflexivity|]); constructor.
Qed.

(** X14.  The questions of [answer-web-questions].  Each detected question
    ends with a question mark, holds no other question mark, and has no
    white space at either end. *)
Theorem questions_shape (cleanedPrompt : jsstring) :
  Forall (fun q =>
            (exists body, q = body ++ js "?" /\ Forall (fun c => c <> 63) body)
            /\ cleanStart q /\ cleanEnd q)
         (questionMatches cleanedPrompt).
Proof.
  unfold questionMatches.
  destruct (matchAllG questionRegExp cleanedPrompt) as [found|] eqn:E; [|constructor].
  apply matchAllG_sound in E.
  apply Forall_forall. intros q Hq.
  apply list_elem_of_In, List.filter_In in Hq as [Hq Hne].
  apply List.in_map_iff in Hq as (w & <- & Hw).
  rewrite Forall_forall in E. apply list_elem_of_In, E in Hw.
  apply Lang_question in Hw as (body & -> & Hbody & Hmarks).
  split; [|apply trim_clean].
  assert (isWhiteSpace 63 = false) as Hmark by reflexivity.
  assert (js "?" = [63]) as -> by (vm_compute; reflexivity).
  unfold trim.
  destruct (trimStart_snoc body 63 Hmark) as [t Ht].
  destruct (trimStart_suffix (body ++ [63])) as [ws Hws].
  rewrite Ht in Hws. rewrite Ht.
  assert (trimEnd (t ++ [63]) = t ++ [63]) as ->.
  { apply trimEnd_id. unfold cleanEnd. by rewrite rev_app_distr. }
  rewrite app_assoc in Hws. apply app_inj_tail in Hws as [Hbody' _].
  exists t. split; [done|].
  subst body. by apply Forall_app in Hmarks as [_ ?].
Qed.

End WithHost.

(** X10 at a short prompt. *)
Lemma summarize_bounded_witness :
  taskOutput (H := refHost None) (js "Ship it.") summarizeTask
  = (js "[" ++ name summarizeTask ++ js "]") ++ nl ++ js "Ship it.".
Proof.
  assert (length (js "Ship it.") <= 300)%nat as Hlen by (vm_compute; lia).
  exact (proj1 (summarize_bounded (H := refHost None) (js "Ship it.") summarizeTask
                  eq_refl) Hlen).
Defined.

(** X11 at a prompt that asks for admin rights, in mixed case. *)
Lemma safety_verdict_witness :
  taskOutput (H := refHost None) reviewPrompt safetyTask
  = (js "[" ++ name safetyTask ++ js "]") ++ nl
    ++ js "⚠️ Needs manual review (matched: "
    ++ join (js ", ") (blockedTerms (H := refHost None) reviewPrompt) ++ js ")".
Proof.
  assert (blockedTerms (H := refHost None) reviewPrompt <> []) as Hb
    by (vm_compute; discriminate).
  exact (proj1 (proj2 (safety_verdict (H := refHost None) reviewPrompt safetyTask
                         eq_refl)) Hb).
Defined.

(** X12 at a prompt that repeats a word. *)
Lemma key_terms_witness :
  NoDup (keyTerms (js "deploy the release, then deploy the release again")).
Proof.
  exact (proj1 (proj2 (proj2 (proj2
           (key_terms (H := refHost None)
              (js "deploy the release, then deploy the release again")
              keyPhrasesTask eq_refl))))).
Defined.

(** X13 at the prompt of the specification. *)
Lemma links_shape_witness :
  Forall (fun link =>
            (exists rest, rest <> []
               /\ (link = js "http://" ++ rest \/ link = js "https://" ++ rest))
            /\ Forall (fun c => isWhiteSpace c = false) link)
         (links linksPrompt).
Proof.
  exact (proj2 (links_shape (H := refHost None) linksPrompt linksTask eq_refl)).
Defined.

End AutomationMore.

(** ** Properties of the state updates *)

Module AppFacts.
Import JS RegExp Types Platform Automation Llm Spec AutomationSpec App AppSpec.
Import JSFacts RegExpFacts MatcherFacts LlmFacts AutomationMore.

Lemma strEq_true a b : strEq a b = true <-> a = b.
Proof. unfold strEq. apply bool_decide_eq_true. Qed.

Lemma strEq_false a b : strEq a b = false <-> a <> b.
Proof. unfold strEq. apply bool_decide_eq_false. Qed.

(** X15.  Toggling a task twice gives the state back.  One toggle keeps
    the tasks in place with their ids, names and commands, flips the flag
    of every task with the given id and leaves the other flags alone. *)
Theorem toggleTask_involutive (taskId : jsstring) (st : TaskState) :
  toggleTask taskId (toggleTask taskId st) = st
  /\ Forall2 (fun old new =>
               id new = id old /\ name new = name old /\ command new = command old
               /\ enabled new
                  = if strEq (id old) taskId then negb (enabled old) else enabled old)
            (tasks st) (tasks (toggleTask taskId st)).
Proof.
  destruct st as [ts n c]. unfold toggleTask. cbn [tasks newTaskName newTaskCommand].
  split.
  - f_equal. induction ts as [|t ts IH]; [done|]. cbn [map]. rewrite IH. f_equal.
    destruct t as [i nm cmd en]. cbn [id name command enabled].
    destruct (strEq i taskId) eqn:E; cbn [id name command enabled]; rewrite E; [|done].
    cbn [id name command enabled]. by rewrite negb_involutive.
  - induction ts as [|t ts IH]; [constructor|]. cbn [map]. constructor; [|done].
    by destruct (strEq (id t) taskId).
Qed.

(** X16.  After [removeTask] no task has the given id; the tasks that are
    left are the tasks with another id, all of them, in their order; the
    input fields are untouched; removing again changes nothing. *)
Theorem removeTask_removes (taskId : jsstring) (st : TaskState) :
  Forall (fun task => id task <> taskId) (tasks (removeTask taskId st))
  /\ tasks (removeTask taskId st) = filter (fun task => id task <> taskId) (tasks st)
  /\ newTaskName (removeTask taskId st) = newTaskName st
  /\ newTaskCommand (removeTask taskId st) = newTaskCommand st
  /\ removeTask taskId (removeTask taskId st) = removeTask taskId st.
Proof.
  destruct st as [ts n c]. unfold removeTask. cbn [tasks newTaskName newTaskCommand].
  assert (List.filter (fun task => negb (strEq (id task) taskId)) ts
          = filter (fun task => id task <> taskId) ts) as Hf.
  { induction ts as [|t ts IH]; [done|]. cbn [List.filter]. rewrite filter_cons.
    destruct (strEq (id t) taskId) eqn:E; cbn [negb].
    - apply strEq_true in E. by rewrite decide_False by (intros Hn; by apply Hn).
    - apply strEq_false in E. by rewrite decide_True, IH by done. }
  split; [|split; [done|split; [done|split; [done|]]]].
  - rewrite Hf. apply Forall_forall. intros t Ht. by apply list_elem_of_filter in Ht as [? _].
  - by rewrite filter_filter.
Qed.

(** X17.  [addTask] does nothing when the name or the command is blank.
    Otherwise it appends one enabled task with the trimmed name and
    command and clears the two fields; removing the task again, when its
    id is new, gives the tasks back. *)
Theorem addTask_then_remove (fresh : jsstring) (st : TaskState) :
  (trim (newTaskName st) = [] \/ trim (newTaskCommand st) = [] -> addTask fresh st = st)
  /\ (trim (newTaskName st) <> [] -> trim (newTaskCommand st) <> [] ->
      addTask fresh st
      = mkTaskState
          (tasks st ++ [mkTask fresh (trim (newTaskName st)) (trim (newTaskCommand st)) true])
          [] []
      /\ (Forall (fun task => id task <> fresh) (tasks st) ->
          tasks (removeTask fresh (addTask fresh st)) = tasks st)).
Proof.
  unfold addTask. cbv zeta. split.
  - intros [-> | ->]; cbn [truthy negb orb]; [done|].
    by destruct (negb (truthy (trim (newTaskName st)))).
  - intros Hn%truthy_true Hc%truthy_true. rewrite Hn, Hc. cbn [negb orb].
    split; [done|]. intros Hfresh. unfold removeTask. cbn [tasks].
    rewrite List.filter_app. cbn [List.filter id]. rewrite strEq_refl. cbn [negb].
    rewrite app_nil_r. induction Hfresh as [|t ts Ht _ IH]; [done|].
    cbn [List.filter]. apply strEq_false in Ht. rewrite Ht. cbn [negb]. by rewrite IH.
Qed.

(** *** The approval queue *)

Lemma find_none_forall (requestId : jsstring) (rs : list ApprovalRequest) :
  List.find (fun request => strEq (request_id request) requestId) rs = None
  <-> Forall (fun request => request_id request <> requestId) rs.
Proof.
  induction rs as [|r rs IH]; cbn [List.find]; [by split; [constructor|]|].
  destruct (strEq (request_id r) requestId) eqn:E.
  - apply strEq_true in E. split; [done|]. intros Hall. by inversion Hall.
  - apply strEq_false in E. rewrite IH. split.
    + by constructor.
    + intros Hall. by inversion Hall.
Qed.

Lemma find_first (requestId : jsstring) (before after : list ApprovalRequest) found :
  Forall (fun request => request_id request <> requestId) before ->
  request_id found = requestId ->
  List.find (fun request => strEq (request_id request) requestId)
            (before ++ found :: after) = Some found.
Proof.
  intros Hbefore Hfound. induction Hbefore as [|r rs Hr _ IH]; cbn [app List.find].
  - apply strEq_true in Hfound. by rewrite Hfound.
  - apply strEq_false in Hr. by rewrite Hr.
Qed.

Lemma filter_other_ids (requestId : jsstring) (rs : list ApprovalRequest) :
  List.filter (fun request => negb (strEq (request_id request) requestId)) rs
  = filter (fun request => request_id request <> requestId) rs.
Proof.
  induction rs as [|r rs IH]; [done|]. cbn [List.filter]. rewrite filter_cons.
  destruct (strEq (request_id r) requestId) eqn:E; cbn [negb].
  - apply strEq_true in E. by rewrite decide_False by (intros Hn; by apply Hn).
  - apply strEq_false in E. by rewrite decide_True, IH by done.
Qed.

Lemma filter_all_other (requestId : jsstring) (rs : list ApprovalRequest) :
  Forall (fun request => request_id request <> requestId) rs ->
  filter (fun request => request_id request <> requestId) rs = rs.
Proof.
  induction 1 as [|r rs Hr _ IH]; [done|].
  by rewrite filter_cons, decide_True, IH by done.
Qed.

(** X18.  [decideRequest] leaves the state as it is exactly when no
    pending request has the given id. *)
Theorem decideRequest_unknown (toUpperCase : jsstring -> jsstring)
    (requestId : jsstring) (decision : Decision) (entryStamp messageStamp : Stamp)
    (st : ReviewState) :
  decideRequest toUpperCase requestId decision entryStamp messageStamp st = st
  <-> Forall (fun request => request_id request <> requestId) (pendingRequests st).
Proof.
  rewrite <- find_none_forall. unfold decideRequest.
  destruct (List.find _ (pendingRequests st)) as [found|]; [|done].
  split; [|done]. intros E. apply (f_equal (fun s => length (messages s))) in E.
  cbn [messages] in E. rewrite length_app in E. cbn [length] in E. lia.
Qed.

(** X19.  Deciding a pending request.  The request decided is the first
    one with the given id; every request with that id leaves the queue and
    the others stay, in their order.  One entry with the fields of the
    request and the decision is put in front of the audit log, which is
    cut to its first 120 entries.  One system message is appended, and the
    two input fields are untouched. *)
Theorem decideRequest_found (toUpperCase : jsstring -> jsstring)
    (requestId : jsstring) (decision : Decision) (entryStamp messageStamp : Stamp)
    (st : ReviewState) (before after : list ApprovalRequest) (found : ApprovalRequest) :
  pendingRequests st = before ++ found :: after ->
  Forall (fun request => request_id request <> requestId) before ->
  request_id found = requestId ->
  let st' := decideRequest toUpperCase requestId decision entryStamp messageStamp st in
  let entry := mkAudit (uuid entryStamp) requestId (request_title found)
                       (request_command found) (request_source found) decision
                       (now entryStamp) in
  pendingRequests st'
  = before ++ filter (fun request => request_id request <> requestId) after
  /\ Forall (fun request => request_id request <> requestId) (pendingRequests st')
  /\ auditLog st' = entry :: take 119 (auditLog st)
  /\ (length (auditLog st') <= 120)%nat
  /\ (exists text,
        messages st' = messages st ++ [newMessage messageStamp system text]
        /\ startsWith text (toUpperCase (decisionString decision) ++ js ": "
                            ++ request_title found) = true)
  /\ requestTitle st' = requestTitle st /\ requestCommand st' = requestCommand st.
Proof.
  intros Hpending Hbefore Hfound st' entry. subst st'. unfold decideRequest.
  rewrite Hpending, (find_first _ _ _ _ Hbefore Hfound).
  cbn [pendingRequests auditLog messages requestTitle requestCommand].
  rewrite filter_other_ids, filter_app, filter_cons, (filter_all_other _ _ Hbefore).
  rewrite decide_False by (intros Hn; by apply Hn).
  split; [done|]. split.
  { apply Forall_app. split; [done|]. apply Forall_forall. intros r Hr.
    by apply list_elem_of_filter in Hr as [? _]. }
  split; [by rewrite Hfound|]. split.
  { rewrite length_take. lia. }
  split; [|done]. eexists. split; [reflexivity|].
  assert (forall a b c r : jsstring, a ++ b ++ c ++ r = (a ++ b ++ c) ++ r) as ->
    by (intros; by rewrite <- !app_assoc).
  apply startsWith_app.
Qed.

(** X20.  A manual request and its decision.  [addManualRequest] does
    nothing when the title or the command is blank.  Otherwise the request
    goes in front of the queue with the trimmed title and command and the
    source [manual], and the two fields are cleared; deciding it, when its
    id is new, gives the queue back and logs that title, command, source
    and decision first. *)
Theorem manual_request_round_trip (toUpperCase : jsstring -> jsstring)
    (stamp entryStamp messageStamp : Stamp) (decision : Decision) (st : ReviewState) :
  (trim (requestTitle st) = [] \/ trim (requestCommand st) = [] ->
   addManualRequest stamp st = st)
  /\ (trim (requestTitle st) <> [] -> trim (requestCommand st) <> [] ->
      addManualRequest stamp st
      = mkReview (mkRequest (uuid stamp) (trim (requestTitle st))
                            (trim (requestCommand st)) manual (now stamp)
                  :: pendingRequests st)
                 (auditLog st) (messages st) [] []
      /\ (Forall (fun request => request_id request <> uuid stamp)
                 (pendingRequests st) ->
          let st' := decideRequest toUpperCase (uuid stamp) decision entryStamp
                                   messageStamp (addManualRequest stamp st) in
          pendingRequests st' = pendingRequests st
          /\ head (auditLog st')
             = Some (mkAudit (uuid entryStamp) (uuid stamp) (trim (requestTitle st))
                             (trim (requestCommand st)) manual decision
                             (now entryStamp)))).
Proof.
  unfold addManualRequest. cbv zeta. split.
  - intros [-> | ->]; cbn [truthy negb orb]; [done|].
    by destruct (negb (truthy (trim (requestTitle st)))).
  - intros Ht%truthy_true Hc%truthy_true. rewrite Ht, Hc. cbn [negb orb].
    split; [done|]. intros Hfresh. unfold decideRequest.
    cbn [pendingRequests List.find request_id]. rewrite strEq_refl.
    cbn [pendingRequests auditLog List.filter request_id request_title
         request_command request_source take head].
    rewrite strEq_refl. cbn [negb].
    by rewrite filter_other_ids, (filter_all_other _ _ Hfresh).
Qed.

(** *** Grounding the prompt *)

Lemma large_bounds : (120 <= 12000)%nat /\ (1 <= 16000)%nat.
Proof. split; apply Nat.leb_le; vm_compute; reflexivity. Qed.

Lemma cleanStart_take n s : cleanStart s -> cleanStart (take n s).
Proof. by destruct n, s. Qed.

Lemma canonicalize_space c :
  isWhiteSpace (canonicalize true c) = false -> isWhiteSpace c = false.
Proof.
  unfold canonicalize. cbn [andb].
  destruct ((97 <=? c) && (c <=? 122)) eqn:E; [|done]. intros _.
  apply andb_true_iff in E as [Hlo%N.leb_le Hhi%N.leb_le].
  unfold isWhiteSpace.
  repeat match goal with
         | |- context [N.eqb c ?k] =>
             let Hk := fresh in destruct (N.eqb_spec c k) as [Hk|Hk]; [lia|]
         end.
  assert ((8192 <=? c) = false) as -> by (apply N.leb_gt; lia). reflexivity.
Qed.

Lemma Lang_lit_folded s w : Lang true (lit s) w -> folded w = folded s.
Proof.
  revert w. induction s as [|c s IH]; intros w Hw; cbn [lit] in Hw.
  - by inversion Hw.
  - inversion Hw as [| | |r1 r2 w1 w2 H1 H2| | | | | |]; subst.
    inversion H1; subst. apply IH in H2. unfold folded in *.
    cbn [app map]. by f_equal.
Qed.

Lemma folded_clean (s w : jsstring) :
  folded w = folded s ->
  Forall (fun c => isWhiteSpace c = false) (folded s) ->
  Forall (fun c => isWhiteSpace c = false) w.
Proof.
  intros <-. unfold folded. rewrite Forall_map. intros Hall.
  eapply Forall_impl; [exact Hall|]. intros c. apply canonicalize_space.
Qed.

Lemma Lang_firstUrl w :
  Lang true (source firstUrlRegExp) w ->
  exists scheme rest,
    w = scheme ++ rest
    /\ (folded scheme = folded (js "http://") \/ folded scheme = folded (js "https://"))
    /\ rest <> []
    /\ Forall (fun c => isWhiteSpace c = false) w.
Proof.
  unfold firstUrlRegExp, urlRegExp. cbn [source]. intros Hw.
  apply Lang_seq in Hw as (w1 & x1 & -> & H1 & Hw).
  apply Lang_seq in Hw as (w2 & x2 & -> & H2 & Hw).
  apply Lang_seq in Hw as (w3 & w4 & -> & H3 & H4).
  apply Lang_lit_folded in H1. apply Lang_lit_folded in H3.
  destruct (Lang_repeat_set _ _ _ _ H4 1%nat true eq_refl) as [Hall Hlen].
  assert (Forall (fun c => isWhiteSpace c = false) w4) as Hclean.
  { eapply Forall_impl; [exact Hall|]. intros c Hc.
    unfold notSpace in Hc. by apply negb_true_iff in Hc. }
  assert (w2 = [] \/ folded w2 = folded (js "s")) as H2'.
  { apply Lang_opt in H2 as [-> | H2]; [by left|right]. by apply Lang_lit_folded. }
  exists (w1 ++ w2 ++ w3), w4. split; [by rewrite <- !app_assoc|].
  assert (folded (w1 ++ w2 ++ w3) = folded (js "http://")
          \/ folded (w1 ++ w2 ++ w3) = folded (js "https://")) as Hscheme.
  { unfold folded in *. rewrite !map_app, H1, H3.
    destruct H2' as [-> | ->]; [left|right]; vm_compute; reflexivity. }
  split; [done|]. split; [by destruct w4; simpl in Hlen; [lia|]|].
  rewrite !app_assoc, <- (app_assoc w1). apply Forall_app. split; [|done].
  destruct Hscheme as [E|E]; (eapply folded_clean; [exact E|]);
    vm_compute; repeat (constructor; [reflexivity|]); constructor.
Qed.

Lemma extractFirstUrl_Some value url :
  extractFirstUrl value = Some url ->
  Lang true (source firstUrlRegExp) url
  /\ exists before after, value = before ++ url ++ after.
Proof.
  unfold extractFirstUrl, exec.
  destruct (execFrom firstUrlRegExp 0 value) as [m|] eqn:E; [|done]. intros [= <-].
  assert (execFrom firstUrlRegExp 0 (drop 0 value) = Some m) as E' by done.
  apply execFrom_sound in E' as (HL & _ & Hle & Hlast); [|lia].
  split; [exact HL|].
  exists (take (index m) value), (drop (lastIndex m) value).
  unfold matched, substring.
  rewrite <- (take_drop (index m) value) at 1. f_equal.
  rewrite <- (take_drop (lastIndex m - index m) (drop (index m) value)) at 1.
  f_equal. rewrite drop_drop. f_equal. lia.
Qed.

Section WithPage.
Variable bodyInnerText : jsstring -> jsstring.

(** X21.  Pasted page text wins.  When the pasted text is not blank no
    page is requested, whatever the prompt holds, and nothing blocks: the
    prompt for the model is the original prompt, a heading, the first
    16000 units at most of the trimmed pasted text, and the instruction to
    answer from it only. *)
Theorem pasted_text_grounds (originalPrompt manualPageText : jsstring) :
  trim manualPageText <> [] ->
  exists clipped,
    buildGroundedPromptFromUrl bodyInnerText originalPrompt manualPageText
    = Done (mkGrounded
              (originalPrompt ++ nl ++ nl ++ js "Grounding content (pasted by user):"
               ++ nl ++ clipped ++ nl ++ nl ++ importantNote)
              None)
    /\ clipped `prefix_of` trim manualPageText
    /\ clipped <> [] /\ (length clipped <= 16000)%nat
    /\ (length (trim manualPageText) <= 16000 -> clipped = trim manualPageText)%nat
    /\ cleanStart clipped.
Proof.
  intros Hpasted. exists (take 16000 (trim manualPageText)).
  unfold buildGroundedPromptFromUrl. cbv zeta.
  destruct (trim manualPageText) as [|c pasted] eqn:E; [done|].
  assert ((0 <? length (c :: pasted))%nat = true) as -> by (apply Nat.ltb_lt; simpl; lia).
  unfold slice0. split; [reflexivity|]. split; [apply prefix_take|].
  assert (cleanStart (c :: pasted)) as Hclean
    by (rewrite <- E; apply trim_clean).
  destruct large_bounds as [_ Hb].
  split.
  { intros Hnil. apply (f_equal length) in Hnil. rewrite length_take in Hnil.
    cbn [length] in Hnil. lia. }
  split; [rewrite length_take; lia|].
  split; [intros Hlen; by apply take_ge|]. by apply cleanStart_take.
Qed.

Lemma page_requested (originalPrompt manualPageText url : jsstring) :
  trim manualPageText = [] ->
  extractFirstUrl originalPrompt = Some url ->
  buildGroundedPromptFromUrl bodyInnerText originalPrompt manualPageText
  = Get url (groundFromPage bodyInnerText originalPrompt).
Proof.
  intros Hpasted Hurl. unfold buildGroundedPromptFromUrl. cbv zeta.
  by rewrite Hpasted, Hurl.
Qed.

(** X22.  The page request.  A page is requested only when the pasted
    text is blank, and for a URL that occurs in the prompt: it starts with
    [http://] or [https://] in any case of the letters, goes on with at
    least one more unit, and holds no white space.  The outcome of the
    request is read by [groundFromPage]. *)
Theorem page_request_url (originalPrompt manualPageText url : jsstring)
    (k : Settled -> Grounded) :
  buildGroundedPromptFromUrl bodyInnerText originalPrompt manualPageText = Get url k ->
  trim manualPageText = []
  /\ extractFirstUrl originalPrompt = Some url
  /\ k = groundFromPage bodyInnerText originalPrompt
  /\ (exists before after, originalPrompt = before ++ url ++ after)
  /\ (exists scheme rest,
        url = scheme ++ rest
        /\ (folded scheme = folded (js "http://")
            \/ folded scheme = folded (js "https://"))
        /\ rest <> [])
  /\ Forall (fun c => isWhiteSpace c = false) url.
Proof.
  unfold buildGroundedPromptFromUrl. cbv zeta.
  destruct (0 <? length (trim manualPageText))%nat eqn:E; [done|].
  apply Nat.ltb_ge in E.
  destruct (extractFirstUrl originalPrompt) as [found|] eqn:Hurl; [|done].
  intros Hget. injection Hget as -> <-.
  split; [destruct (trim manualPageText); [done|simpl in E; lia]|].
  split; [done|]. split; [done|].
  apply extractFirstUrl_Some in Hurl as (HL & Hocc). split; [done|].
  apply Lang_firstUrl in HL as (scheme & rest & -> & Hscheme & Hrest & Hclean).
  split; [by exists scheme, rest|done].
Qed.

(** Nothing pasted and no URL in the prompt: the prompt goes to the model
    as it is, without a request and without a blocker. *)
Lemma no_url_no_grounding (originalPrompt manualPageText : jsstring) :
  trim manualPageText = [] ->
  extractFirstUrl originalPrompt = None ->
  buildGroundedPromptFromUrl bodyInnerText originalPrompt manualPageText
  = Done (mkGrounded originalPrompt None).
Proof.
  intros Hpasted Hurl. unfold buildGroundedPromptFromUrl. cbv zeta.
  by rewrite Hpasted, Hurl.
Qed.

(** X23.  The outcomes of the page request.  A blocker message always
    comes with the original prompt, unchanged.  There is none only when
    the response is in the 2xx range and the text of the page has 120
    units or more; then the prompt holds the first 12000 units at most of
    that text, which starts with no white space. *)
Theorem page_outcomes (originalPrompt : jsstring) (settled : Settled) :
  let g := groundFromPage bodyInnerText originalPrompt settled in
  (blockerMessage g <> None -> promptForModel g = originalPrompt)
  /\ (blockerMessage g = None ->
      exists response clipped,
        settled = Resolved response /\ ok response = true
        /\ clipped `prefix_of` htmlToText bodyInnerText (text response)
        /\ (120 <= length clipped)%nat /\ (length clipped <= 12000)%nat
        /\ cleanStart clipped
        /\ promptForModel g
           = originalPrompt ++ nl ++ nl ++ js "Grounding content from URL:" ++ nl
             ++ clipped ++ nl ++ nl ++ importantNote).
Proof.
  cbv zeta. unfold groundFromPage.
  destruct settled as [response| |]; cbn [promptForModel blockerMessage];
    [|by split|by split].
  destruct (ok response) eqn:Hok; cbn [negb promptForModel blockerMessage];
    [|by split].
  destruct (negb (truthy (htmlToText bodyInnerText (text response)))
            || (length (htmlToText bodyInnerText (text response)) <? 120)%nat)
    eqn:Hshort; cbn [promptForModel blockerMessage]; [by split|].
  split; [done|]. intros _.
  apply orb_false_iff in Hshort as [_ Hlen%Nat.ltb_ge].
  exists response, (take 12000 (htmlToText bodyInnerText (text response))).
  unfold slice0. split; [done|]. split; [done|]. split; [apply prefix_take|].
  destruct large_bounds as [Hb _].
  split; [rewrite length_take; lia|]. split; [rewrite length_take; lia|].
  split; [|done]. apply cleanStart_take. unfold htmlToText. apply trim_clean.
Qed.

End WithPage.

(** *** The text of a page *)

Lemma matchHere_spaces i rest :
  matchHere spacesRegExp i rest
  = if Nat.eqb (spanLength isWhiteSpace rest) 0 then None
    else Some (mkMatch i (i + spanLength isWhiteSpace rest) []).
Proof.
  unfold matchHere, spacesRegExp. cbn [source ignoreCase].
  rewrite compile_plus_set by done. cbn [remaining].
  destruct (Nat.eqb (spanLength isWhiteSpace rest) 0); reflexivity.
Qed.

Lemma notSpace_unfold c : notSpace c = negb (isWhiteSpace c).
Proof. reflexivity. Qed.

Lemma execFrom_spaces i rest :
  execFrom spacesRegExp i rest
  = let k := spanLength notSpace rest in
    let n := spanLength isWhiteSpace (drop k rest) in
    if Nat.eqb n 0 then None else Some (mkMatch (i + k) (i + k + n) []).
Proof.
  cbv zeta. revert i. induction rest as [|c rest IH]; intros i.
  - cbn [execFrom]. by rewrite matchHere_spaces.
  - cbn [execFrom]. rewrite matchHere_spaces. cbn [spanLength].
    rewrite !notSpace_unfold.
    destruct (isWhiteSpace c) eqn:E; cbn [negb Nat.eqb drop spanLength].
    + rewrite E. cbn [Nat.eqb]. by rewrite Nat.add_0_r.
    + rewrite IH.
      destruct (Nat.eqb (spanLength isWhiteSpace (drop (spanLength notSpace rest) rest)) 0);
        [done|].
      do 2 f_equal; lia.
Qed.

Lemma words_then_space rest :
  spanLength isWhiteSpace (drop (spanLength notSpace rest) rest) = 0%nat ->
  drop (spanLength notSpace rest) rest = [].
Proof.
  induction rest as [|c rest IH]; [done|]. cbn [spanLength].
  rewrite !notSpace_unfold.
  destruct (isWhiteSpace c) eqn:E; cbn [negb drop]; [|done].
  cbn [spanLength]. by rewrite E.
Qed.

Lemma collapseFrom_run s :
  collapseFrom true s = collapse (drop (spanLength isWhiteSpace s) s).
Proof.
  unfold collapse. induction s as [|c s IH]; [done|]. cbn [collapseFrom spanLength].
  destruct (isWhiteSpace c) eqn:E; cbn [drop]; [done|].
  cbn [collapseFrom]. by rewrite E.
Qed.

Lemma collapse_unfold rest :
  collapse rest
  = take (spanLength notSpace rest) rest
    ++ (if Nat.eqb (spanLength isWhiteSpace (drop (spanLength notSpace rest) rest)) 0
        then []
        else js " "
             ++ collapse (drop (spanLength isWhiteSpace
                                  (drop (spanLength notSpace rest) rest))
                               (drop (spanLength notSpace rest) rest))).
Proof.
  induction rest as [|c rest IH]; [done|].
  unfold collapse at 1. cbn [collapseFrom spanLength]. rewrite !notSpace_unfold.
  destruct (isWhiteSpace c) eqn:E; cbn [negb drop take app spanLength].
  - rewrite E. cbn [Nat.eqb drop]. rewrite collapseFrom_run. reflexivity.
  - fold (collapse rest). by rewrite IH.
Qed.

Lemma replace_spaces_from fuel s pos :
  (pos <= length s)%nat -> (length s - pos < fuel)%nat ->
  spliceMatches s pos (matchesFrom spacesRegExp fuel s pos) (js " ")
  = collapse (drop pos s).
Proof.
  revert pos. induction fuel as [|fuel IH]; intros pos Hpos Hfuel; [lia|].
  cbn [matchesFrom].
  assert ((length s <? pos)%nat = false) as -> by (apply Nat.ltb_ge; lia).
  rewrite execFrom_spaces. cbv zeta. rewrite (collapse_unfold (drop pos s)).
  set (rest := drop pos s).
  set (k := spanLength notSpace rest).
  set (n := spanLength isWhiteSpace (drop k rest)).
  pose proof (spanLength_le notSpace rest) as Hk. fold k in Hk.
  pose proof (spanLength_le isWhiteSpace (drop k rest)) as Hn. fold n in Hn.
  rewrite length_drop in Hn. unfold rest in Hk, Hn. rewrite length_drop in Hk, Hn.
  destruct (Nat.eqb n 0) eqn:En.
  - apply Nat.eqb_eq in En. cbn [spliceMatches].
    pose proof (words_then_space rest En) as Hnil. fold k in Hnil.
    fold rest. rewrite <- (take_drop k rest) at 1. by rewrite Hnil.
  - apply Nat.eqb_neq in En. cbn [spliceMatches index lastIndex].
    assert (Nat.eqb (pos + k + n) (pos + k) = false) as -> by (apply Nat.eqb_neq; lia).
    rewrite IH by lia.
    rewrite GetSubstitution_plain
      by (vm_compute; repeat (constructor; [discriminate|]); constructor).
    f_equal.
    + unfold substring. fold rest. f_equal. lia.
    + f_equal. f_equal. unfold rest. rewrite !drop_drop. f_equal. lia.
Qed.

(** [replace(/\s+/g, ' ')] makes every run of white space one space. *)
Lemma replace_spaces s : replaceG spacesRegExp (js " ") s = collapse s.
Proof.
  unfold replaceG. rewrite replace_spaces_from by lia. by rewrite drop_0.
Qed.

Lemma collapseFrom_spaces inRun s :
  Forall (fun c => isWhiteSpace c = true -> c = 32) (collapseFrom inRun s).
Proof.
  revert inRun. induction s as [|c s IH]; intros inRun; cbn [collapseFrom];
    [constructor|].
  destruct (isWhiteSpace c) eqn:E.
  - destruct inRun; [apply IH|]. constructor; [done|apply IH].
  - constructor; [|apply IH]. by rewrite E.
Qed.

Lemma collapseFrom_spaced inRun s :
  spacedOnce (collapseFrom inRun s)
  /\ (inRun = true -> cleanStart (collapseFrom inRun s)).
Proof.
  revert inRun. induction s as [|c s IH]; intros inRun; cbn [collapseFrom];
    [done|].
  destruct (isWhiteSpace c) eqn:E.
  - destruct inRun; [apply IH|]. split; [|done].
    cbn [spacedOnce]. split; [intros _; by apply IH|apply IH].
  - split; [|done]. cbn [spacedOnce]. split; [by rewrite E|apply IH].
Qed.

Lemma collapseFrom_words inRun s :
  List.filter notSpace (collapseFrom inRun s) = List.filter notSpace s.
Proof.
  revert inRun. induction s as [|c s IH]; intros inRun; cbn [collapseFrom];
    [done|].
  cbn [List.filter]. rewrite (notSpace_unfold c).
  destruct (isWhiteSpace c) eqn:E; cbn [negb].
  - destruct inRun; [apply IH|]. cbn [List.filter].
    assert (notSpace 32 = false) as -> by (vm_compute; reflexivity). apply IH.
  - cbn [List.filter]. rewrite (notSpace_unfold c), E. cbn [negb]. by rewrite IH.
Qed.

Lemma trimStart_segment s :
  exists ws, s = ws ++ trimStart s /\ Forall (fun c => isWhiteSpace c = true) ws.
Proof.
  induction s as [|c s (ws & IH & Hws)]; cbn [trimStart]; [by exists []|].
  destruct (isWhiteSpace c) eqn:E.
  - exists (c :: ws). split; [cbn [app]; by f_equal|by constructor].
  - by exists [].
Qed.

Lemma trim_segment s :
  exists pre post,
    s = pre ++ trim s ++ post
    /\ Forall (fun c => isWhiteSpace c = true) pre
    /\ Forall (fun c => isWhiteSpace c = true) post.
Proof.
  destruct (trimStart_segment s) as (pre & Hs & Hpre).
  destruct (trimStart_segment (rev (trimStart s))) as (ws & Hr & Hws).
  exists pre, (rev ws). split; [|split; [done|]].
  - rewrite Hs at 1. f_equal. unfold trim, trimEnd.
    rewrite <- rev_app_distr, <- Hr. by rewrite rev_involutive.
  - by apply List.Forall_rev.
Qed.

Lemma spacedOnce_middle pre t post : spacedOnce (pre ++ t ++ post) -> spacedOnce t.
Proof.
  induction pre as [|c pre IH]; cbn [app spacedOnce].
  - induction t as [|c t IH]; cbn [app spacedOnce]; [done|].
    intros [Hc Ht]. split; [|by apply IH]. intros Hws. specialize (Hc Hws).
    by destruct t.
  - intros [_ H]. by apply IH.
Qed.

Lemma filter_spaces ws :
  Forall (fun c => isWhiteSpace c = true) ws -> List.filter notSpace ws = [].
Proof.
  induction 1 as [|c ws Hc _ IH]; [done|]. cbn [List.filter].
  by rewrite (notSpace_unfold c), Hc.
Qed.

Section PageText.
Variable bodyInnerText : jsstring -> jsstring.

(** X24.  The text of a page.  [htmlToText] gives the visible text with
    its white space normalised: the only white space left is the space,
    never two in a row and none at either end; the other units are those
    of the visible text, all of them, in their order. *)
Theorem htmlToText_normalised (html : jsstring) :
  let pageText := htmlToText bodyInnerText html in
  Forall (fun c => isWhiteSpace c = true -> c = 32) pageText
  /\ spacedOnce pageText
  /\ cleanStart pageText /\ cleanEnd pageText
  /\ List.filter notSpace pageText = List.filter notSpace (bodyInnerText html).
Proof.
  cbv zeta. unfold htmlToText. rewrite replace_spaces.
  set (visible := bodyInnerText html).
  destruct (trim_segment (collapse visible)) as (pre & post & Hseg & Hpre & Hpost).
  pose proof (collapseFrom_spaces false visible) as Hall. fold (collapse visible) in Hall.
  pose proof (proj1 (collapseFrom_spaced false visible)) as Hspaced.
  fold (collapse visible) in Hspaced.
  pose proof (collapseFrom_words false visible) as Hwords.
  fold (collapse visible) in Hwords.
  rewrite Hseg in Hall, Hspaced, Hwords.
  split. { apply Forall_app in Hall as [_ Hall]. by apply Forall_app in Hall as [Hall _]. }
  split; [by apply spacedOnce_middle in Hspaced|].
  split; [apply trim_clean|]. split; [apply trim_clean|].
  rewrite <- Hwords, !List.filter_app, (filter_spaces pre), (filter_spaces post) by done.
  by rewrite app_nil_r.
Qed.

End PageText.

(** *** The properties at sample inputs *)

(** X17 at a name and a command with white space around them. *)
Lemma addTask_then_remove_witness :
  tasks (removeTask (js "t-9") (addTask (js "t-9") sampleTasks)) = tasks sampleTasks.
Proof.
  assert (trim (newTaskName sampleTasks) <> []) as Hn by (vm_compute; discriminate).
  assert (trim (newTaskCommand sampleTasks) <> []) as Hc by (vm_compute; discriminate).
  assert (Forall (fun task => id task <> js "t-9") (tasks sampleTasks)) as Hfresh
    by (vm_compute; repeat (constructor; [discriminate|]); constructor).
  exact (proj2 (proj2 (addTask_then_remove (js "t-9") sampleTasks) Hn Hc) Hfresh).
Defined.

(** X19 at a queue of one request. *)
Lemma decideRequest_found_witness :
  pendingRequests (decideRequest (map upperUnit) (js "r-1") approved stampA stampB
                                 sampleReview)
  = [].
Proof.
  assert (request_id sampleRequest = js "r-1") as Hid by (vm_compute; reflexivity).
  exact (proj1 (decideRequest_found (map upperUnit) (js "r-1") approved stampA stampB
                  sampleReview [] [] sampleRequest eq_refl (Forall_nil_2 _) Hid)).
Defined.

(** X20 at a title and a command with white space around them. *)
Lemma manual_request_round_trip_witness :
  pendingRequests (decideRequest (map upperUnit) (uuid stampC) denied stampA stampB
                                 (addManualRequest stampC sampleReview))
  = pendingRequests sampleReview.
Proof.
  assert (trim (requestTitle sampleReview) <> []) as Ht by (vm_compute; discriminate).
  assert (trim (requestCommand sampleReview) <> []) as Hc by (vm_compute; discriminate).
  assert (Forall (fun request => request_id request <> uuid stampC)
                 (pendingRequests sampleReview)) as Hfresh
    by (vm_compute; repeat (constructor; [discriminate|]); constructor).
  exact (proj1 (proj2 (proj2 (manual_request_round_trip (map upperUnit) stampC stampA
                                stampB denied sampleReview) Ht Hc) Hfresh)).
Defined.

(** X21 at a pasted text and a prompt that holds a URL. *)
Lemma pasted_text_grounds_witness :
  exists clipped,
    buildGroundedPromptFromUrl plainText mixedCasePrompt samplePage
    = Done (mkGrounded
              (mixedCasePrompt ++ nl ++ nl ++ js "Grounding content (pasted by user):"
               ++ nl ++ clipped ++ nl ++ nl ++ importantNote)
              None)
    /\ clipped `prefix_of` trim samplePage
    /\ clipped <> [] /\ (length clipped <= 16000)%nat
    /\ (length (trim samplePage) <= 16000 -> clipped = trim samplePage)%nat
    /\ cleanStart clipped.
Proof.
  assert (trim samplePage <> []) as Hpasted by (vm_compute; discriminate).
  exact (pasted_text_grounds plainText mixedCasePrompt samplePage Hpasted).
Defined.

(** X22 at a prompt whose URL is in upper case. *)
Lemma page_request_url_witness :
  Forall (fun c => isWhiteSpace c = false) (js "HTTPS://Example.com/a?b=1").
Proof.
  assert (trim (js "  ") = []) as Hpasted by (vm_compute; reflexivity).
  assert (extractFirstUrl mixedCasePrompt = Some (js "HTTPS://Example.com/a?b=1"))
    as Hurl by (vm_compute; reflexivity).
  exact (proj2 (proj2 (proj2 (proj2 (proj2
           (page_request_url plainText mixedCasePrompt (js "  ")
              (js "HTTPS://Example.com/a?b=1")
              (groundFromPage plainText mixedCasePrompt)
              (page_requested plainText mixedCasePrompt (js "  ")
                 (js "HTTPS://Example.com/a?b=1") Hpasted Hurl))))))).
Defined.

(** X23 at a page of more than 120 units. *)
Lemma page_outcomes_witness :
  exists response clipped,
    Resolved okPage = Resolved response /\ ok response = true
    /\ clipped `prefix_of` htmlToText plainText (text response)
    /\ (120 <= length clipped)%nat /\ (length clipped <= 12000)%nat
    /\ cleanStart clipped
    /\ promptForModel (groundFromPage plainText godPrompt (Resolved okPage))
       = godPrompt ++ nl ++ nl ++ js "Grounding content from URL:" ++ nl
         ++ clipped ++ nl ++ nl ++ importantNote.
Proof.
  assert (blockerMessage (groundFromPage plainText godPrompt (Resolved okPage)) = None)
    as Hnone by (vm_compute; reflexivity).
  exact (proj2 (page_outcomes plainText godPrompt (Resolved okPage)) Hnone).
Defined.

End AppFacts.
